(** * Facebook Marketplace car scraper: parser, valuation, scoring, collection

    A shallow embedding of the core of [facebook_car_scraper.py]:
    [parse_car_text_enhanced] and [parse_car_text],
    [get_market_pricing_estimate], [calculate_deal_scores],
    [read_preferences], [get_user_search_preferences_fallback] and
    [build_facebook_url], the rows of
    [save_results_to_csv], [scrape_facebook_marketplace_safe] with its
    scrolling and extraction loops, [run_search_fallback] and the
    non-interactive path of [main].

    Conventions of the embedding.
    - A Python [str] is the list of its code points ([pystr]).  The character
      tables are those of CPython for the code points 0..255.  The texts of
      the parser theorems are Stdlib strings, read as the sequence of their
      Latin-1 code points, so every such text lies in the range the tables
      cover; title-casing can lead out of it (to 376 and 924), which the
      lists of code points allow.
    - A Python [int] is a [Z]; [int()] and [str()] are taken without the
      interpreter's limit on the number of digits.
    - A finite Python [float] is read as the rational it denotes and float
      arithmetic as exact rational arithmetic: the decimal literals of the
      source ([1.12], [0.04], ...) are the rationals they spell.  Rounding to
      binary64 and magnitudes beyond its range are outside the model.
    - [datetime.now().year] is the parameter [current_year], the same for a
      whole run.
    - An exception is a missing result ([None]) where the source catches it
      inside the function modelled, and an explicit [Raises] where it leaves
      the function.
    - The page is a collaborator: the scrolling loop takes what each pass
      yields, the extraction loop the text shown for each href.  So are the
      files: the preferences file is the list of rows its reader yields, the
      results file the list of rows handed to its writer. *)

From Stdlib Require Import ZArith NArith QArith Qround Qabs List String Ascii Bool.
From Stdlib Require Import Lia Lqa Permutation Sorting.Sorted ListSet.
Import ListNotations.

Open Scope Z_scope.

(** ** Python strings *)

Definition pystr := list N.

(** [u "abc"] is the Python string with the same (Latin-1) characters. *)
Definition u (s : string) : pystr := map N_of_ascii (list_ascii_of_string s).

Definition pystr_eqb (a b : pystr) : bool :=
  if list_eq_dec N.eq_dec a b then true else false.

(** [x in xs] for a list of strings. *)
Definition str_in (x : pystr) (xs : list pystr) : bool := existsb (pystr_eqb x) xs.

(** [c in s] for a one-character needle. *)
Definition char_in (c : N) (s : pystr) : bool := existsb (N.eqb c) s.

Module Char.
Open Scope N_scope.

Definition between (lo hi c : N) : bool := (lo <=? c) && (c <=? hi).

(** [str.isspace], the separator of [str.split()] and the class [\s]. *)
Definition isspace (c : N) : bool :=
  between 9 13 c || between 28 32 c || (c =? 133) || (c =? 160).

(** The whitespace that [int()] and [float()] strip. *)
Definition isnumspace (c : N) : bool :=
  between 9 13 c || (c =? 32) || (c =? 133) || (c =? 160).

(** [str.isdecimal] and the class [\d]. *)
Definition isdecimal (c : N) : bool := between 48 57 c.

(** [str.isdigit]: the decimal digits and the superscripts 2, 3 and 1. *)
Definition isdigit (c : N) : bool :=
  isdecimal c || (c =? 178) || (c =? 179) || (c =? 185).

Definition isupper (c : N) : bool :=
  between 65 90 c || between 192 214 c || between 216 222 c.

Definition islower (c : N) : bool :=
  between 97 122 c || (c =? 170) || (c =? 181) || (c =? 186)
  || between 223 246 c || between 248 255 c.

Definition iscased (c : N) : bool := isupper c || islower c.

(** The class [\w]: alphanumeric characters and the underscore. *)
Definition isword (c : N) : bool :=
  iscased c || isdigit c || between 188 190 c || (c =? 95).

Definition lower (c : N) : N := if isupper c then c + 32 else c.

(** Title-case mapping of one character; the sharp s expands to two. *)
Definition title (c : N) : list N :=
  if between 97 122 c || between 224 246 c || between 248 254 c then [c - 32]
  else if c =? 181 then [924]
  else if c =? 223 then [83; 115]
  else if c =? 255 then [376]
  else [c].

Definition digit_value (c : N) : Z := Z.of_N (c - 48).
End Char.

(** [str.lower]. *)
Definition lower (s : pystr) : pystr := map Char.lower s.

(** [str.title]: a character that follows a cased one is lowered, any other
    is title-cased. *)
Fixpoint title_from (previous_is_cased : bool) (s : pystr) : pystr :=
  match s with
  | [] => []
  | c :: s' =>
      (if previous_is_cased then [Char.lower c] else Char.title c)
        ++ title_from (Char.iscased c) s'
  end.

Definition title (s : pystr) : pystr := title_from false s.

(** [str.replace(c, '')] for a one-character [c]. *)
Definition remove_char (c : N) (s : pystr) : pystr :=
  filter (fun x => negb (N.eqb x c)) s.

(** [str.isdigit]: non-empty and every character a digit. *)
Definition isdigit (s : pystr) : bool :=
  match s with [] => false | _ => forallb Char.isdigit s end.

Definition startswith_char (c : N) (s : pystr) : bool :=
  match s with x :: _ => N.eqb x c | [] => false end.

(** [str.split()] with no argument: maximal runs of non-whitespace. *)
Fixpoint split_from (cur : pystr) (s : pystr) : list pystr :=
  match s with
  | [] => match cur with [] => [] | _ => [rev cur] end
  | c :: s' =>
      if Char.isspace c
      then match cur with [] => split_from [] s' | _ => rev cur :: split_from [] s' end
      else split_from (c :: cur) s'
  end.

Definition str_split (s : pystr) : list pystr := split_from [] s.

Fixpoint lstrip (p : N -> bool) (s : pystr) : pystr :=
  match s with
  | c :: s' => if p c then lstrip p s' else s
  | [] => []
  end.

Definition strip (p : N -> bool) (s : pystr) : pystr :=
  rev (lstrip p (rev (lstrip p s))).

(** ** Numbers from and to strings *)

(** A group of decimal digits in which single underscores may separate
    digits; [count] is the number of digits read. *)
Fixpoint digit_group (acc : Z) (count : nat) (after_digit : bool) (s : pystr)
  : option (Z * nat) :=
  match s with
  | [] => if after_digit then Some (acc, count) else None
  | c :: s' =>
      if Char.isdecimal c
      then digit_group (10 * acc + Char.digit_value c) (S count) true s'
      else if N.eqb c 95 && after_digit
           then digit_group acc count false s'
           else None
  end.

Definition signed (body : pystr -> option Z) (s : pystr) : option Z :=
  match s with
  | 43%N :: r => body r
  | 45%N :: r => option_map Z.opp (body r)
  | _ => body s
  end.

(** [int(s)] for a string [s]; [None] is [ValueError]. *)
Definition py_int (s : pystr) : option Z :=
  signed (fun r => option_map fst (digit_group 0 0 false r))
         (strip Char.isnumspace s).

(** The character of the last decimal digit of [n]. *)
Definition digit_char (n : Z) : N := (48 + Z.to_N (n mod 10))%N.

Fixpoint decimal_digits (fuel : nat) (n : Z) (acc : pystr) : pystr :=
  match fuel with
  | O => acc
  | S fuel' =>
      let acc' := digit_char n :: acc in
      if n <? 10 then acc' else decimal_digits fuel' (n / 10) acc'
  end.

(** [str(n)] for an integer [n]. *)
Definition py_str (n : Z) : pystr :=
  if n <? 0
  then 45%N :: decimal_digits (S (Z.to_nat (Z.log2 (- n)))) (- n) []
  else decimal_digits (S (Z.to_nat (Z.log2 n))) n [].

(** A Python float: finite (the rational it denotes), infinite or NaN. *)
Inductive pyfloat :=
| Finite (q : Q)
| Infinite (negative : bool)
| NaN.

Fixpoint split_at (p : N -> bool) (s : pystr) : pystr * option pystr :=
  match s with
  | [] => ([], None)
  | c :: s' =>
      if p c then ([], Some s')
      else let '(a, b) := split_at p s' in (c :: a, b)
  end.

Definition pow10 (e : Z) : Q :=
  if e <? 0 then 1 # Z.to_pos (10 ^ (- e)) else inject_Z (10 ^ e).

(** The mantissa [digits[.digits]] of a float literal. *)
Definition float_mantissa (s : pystr) : option Q :=
  let '(ip, rest) := split_at (N.eqb 46) s in
  match ip, rest with
  | [], None => None
  | _, None => option_map (fun r => inject_Z (fst r)) (digit_group 0 0 false ip)
  | [], Some [] => None
  | _, Some fp =>
      match (match ip with [] => Some (0, O) | _ => digit_group 0 0 false ip end),
            (match fp with [] => Some (0, O) | _ => digit_group 0 0 false fp end) with
      | Some (i, _), Some (f, n) =>
          Some (inject_Z i + inject_Z f * pow10 (- Z.of_nat n))%Q
      | _, _ => None
      end
  end.

Definition float_body (s : pystr) : option pyfloat :=
  let l := lower s in
  if pystr_eqb l (u "inf") || pystr_eqb l (u "infinity") then Some (Infinite false)
  else if pystr_eqb l (u "nan") then Some NaN
  else
    let '(m, e) := split_at (fun c => N.eqb c 101 || N.eqb c 69) s in
    match float_mantissa m, e with
    | Some q, None => Some (Finite q)
    | Some q, Some ex =>
        match signed (fun r => option_map fst (digit_group 0 0 false r)) ex with
        | Some k => Some (Finite (q * pow10 k)%Q)
        | None => None
        end
    | None, _ => None
    end.

(** [float(s)] for a string [s]; [None] is [ValueError]. *)
Definition py_float (s : pystr) : option pyfloat :=
  match strip Char.isnumspace s with
  | 43%N :: r => float_body r
  | 45%N :: r =>
      match float_body r with
      | Some (Finite q) => Some (Finite (- q)%Q)
      | Some (Infinite b) => Some (Infinite (negb b))
      | other => other
      end
  | r => float_body r
  end.

(** [int(x)] for a float [x]: truncation toward zero; [None] is the
    [OverflowError] or [ValueError] of an infinity or a NaN. *)
Definition py_trunc (q : Q) : Z := Z.quot (Qnum q) (Zpos (Qden q)).

Definition int_of_float (x : pyfloat) : option Z :=
  match x with
  | Finite q => Some (py_trunc q)
  | _ => None
  end.

(** [max(a, b)]: the first argument unless the second is greater. *)
Definition py_max (a b : Q) : Q := if Qle_bool b a then a else b.

(** [round(x, 3)], halves to the even neighbour. *)
Definition round_half_even (q : Q) : Z :=
  let f := Qfloor q in
  let r := (q - inject_Z f)%Q in
  match (r ?= 1 # 2)%Q with
  | Lt => f
  | Gt => f + 1
  | Eq => if Z.even f then f else f + 1
  end.

Definition py_round3 (q : Q) : Q := inject_Z (round_half_even (q * 1000)) / 1000.

(** ** The valuation estimator *)

Definition premium_brands : list pystr :=
  map u ["bmw"; "mercedes"; "lexus"; "audi"]%string.

Definition reliable_brands : list pystr :=
  map u ["toyota"; "honda"; "mazda"]%string.

Definition fallback_prices : list Z := [8000; 10000; 12000].

Definition brand_factor (make : pystr) : Q :=
  (if str_in (lower make) premium_brands then 1.08
   else if str_in (lower make) reliable_brands then 1.04
   else 1.0)%Q.

Definition age_factor (age : Z) : Q := (py_max 0.75 (1.0 - inject_Z age * 0.04))%Q.

(** [get_market_pricing_estimate(make, model, year, price)]; [current_year]
    is [datetime.now().year].  Either [int()] failing leads to the bare
    [except] and the fixed triple. *)
Definition get_market_pricing_estimate
    (current_year : Z) (make model year price : pystr) : list Z :=
  match py_int price with
  | None => fallback_prices
  | Some listing_price =>
      match py_int year with
      | None => fallback_prices
      | Some year_int =>
          let age := current_year - year_int in
          let base_multiplier := 1.12%Q in
          let estimated_value :=
            (inject_Z listing_price * base_multiplier * brand_factor make
             * age_factor age)%Q in
          let trade_in := py_trunc (estimated_value * 0.85)%Q in
          let private_party := py_trunc (estimated_value * 0.98)%Q in
          let dealer_retail := py_trunc (estimated_value * 1.12)%Q in
          [trade_in; private_party; dealer_retail]
      end
  end.

(** ** The deal scorer *)

(** A candidate record is the list of strings the parser returns:
    price, year, make, model, mileage, location, url. *)
Definition record := list pystr.

Definition field (i : nat) (car : record) : pystr := nth i car [].

(** The entry [[round(ratio, 3), condition, deal_quality] + car + [market_prices]]. *)
Record scored := {
  ratio3 : Q;
  condition : pystr;
  deal_quality : pystr;
  car : record;
  market_prices : list Z
}.

(** [int(car[1]) if car[1].isdigit() else 2010]; [None] when [int]
    rejects a string that [isdigit] accepts. *)
Definition car_year (car : record) : option Z :=
  if isdigit (field 1 car) then py_int (field 1 car) else Some 2010.

(** The mileage of a record as the scorer reads it: absent when the field is
    missing, is the text Unknown, or does not convert. *)
Definition car_mileage (car : record) : option Z :=
  if (4 <? List.length car)%nat && negb (pystr_eqb (field 4 car) (u "Unknown"))
  then py_int (remove_char 44 (field 4 car))
  else None.

(** The branch on [if mileage:] and the thresholds under it; a mileage of
    zero is as false as a missing one. *)
Definition mileage_condition (mileage : option Z) : pystr * Q :=
  match mileage with
  | Some m =>
      if m =? 0 then (u "Unknown", 0.90%Q)
      else if m <? 50000 then (u "Excellent", 1.0%Q)
      else if m <? 80000 then (u "Good", 0.92%Q)
      else if m <? 120000 then (u "Fair", 0.85%Q)
      else (u "Poor", 0.75%Q)
  | None => (u "Unknown", 0.90%Q)
  end.

Definition quality_of_ratio (ratio : Q) : pystr :=
  if Qlt_le_dec 1.25%Q ratio then u "Excellent"
  else if Qlt_le_dec 1.10%Q ratio then u "Good"
  else if Qlt_le_dec 0.95%Q ratio then u "Fair"
  else u "Poor".

Definition sumZ (l : list Z) : Z := fold_left Z.add l 0.

(** The locals of one loop iteration once the ratio has been computed. *)
Record scoring := {
  s_price : Q;
  s_market_prices : list Z;
  s_condition : pystr;
  s_condition_factor : Q;
  s_ratio : Q
}.

(** The body of the loop up to [ratio = adjusted_market / price]; [None]
    when the record is skipped or an exception reaches the handler. *)
Definition score_ratio (current_year : Z) (car : record) : option scoring :=
  if (List.length car <? 4)%nat then None
  else
    match py_float (field 0 car) with
    | None => None
    | Some price_f =>
        match car_year car with
        | None => None
        | Some year =>
            match int_of_float price_f, price_f with
            | Some int_price, Finite price =>
                let make := field 2 car in
                let model := field 3 car in
                let market_prices :=
                  get_market_pricing_estimate current_year make model
                    (py_str year) (py_str int_price) in
                let '(condition, condition_factor) :=
                  mileage_condition (car_mileage car) in
                let avg_market :=
                  (inject_Z (sumZ market_prices)
                   / inject_Z (Z.of_nat (List.length market_prices)))%Q in
                let adjusted_market := (avg_market * condition_factor)%Q in
                if Qeq_bool price 0 then None
                else Some {| s_price := price;
                             s_market_prices := market_prices;
                             s_condition := condition;
                             s_condition_factor := condition_factor;
                             s_ratio := (adjusted_market / price)%Q |}
            | _, _ => None
            end
        end
    end.

Definition score_car (current_year : Z) (car : record) : option scored :=
  match score_ratio current_year car with
  | None => None
  | Some s =>
      Some {| ratio3 := py_round3 (s_ratio s);
              condition := s_condition s;
              deal_quality := quality_of_ratio (s_ratio s);
              car := car;
              market_prices := s_market_prices s |}
  end.

(** [list.sort(key=..., reverse=True)]: descending by key, records of equal
    key staying in their order of arrival. *)
Section Sort.
Context {A : Type} (key : A -> Q).

Fixpoint insert_desc (x : A) (l : list A) : list A :=
  match l with
  | [] => [x]
  | y :: l' =>
      if Qle_bool (key y) (key x) then x :: l
      else y :: insert_desc x l'
  end.

Definition sort_desc (l : list A) : list A := fold_right insert_desc [] l.
End Sort.

(** The [for] loop of [calculate_deal_scores], appending to
    [scored_listings]. *)
Fixpoint score_loop (current_year : Z) (car_listings : list record)
    (scored_listings : list scored) : list scored :=
  match car_listings with
  | [] => scored_listings
  | car :: rest =>
      match score_car current_year car with
      | Some scored_car => score_loop current_year rest (scored_listings ++ [scored_car])
      | None => score_loop current_year rest scored_listings
      end
  end.

Definition calculate_deal_scores (current_year : Z) (car_listings : list record)
  : list scored :=
  sort_desc ratio3 (score_loop current_year car_listings []).

(** The sample listings of [create_realistic_sample_data]. *)
Definition sample_cars : list record :=
  map (map u)
    [ ["14500"; "2015"; "Honda"; "Civic"; "78000"; "Atlanta, GA"; "https://facebook.com/marketplace/item/sample1"];
      ["9200"; "2012"; "Toyota"; "Corolla"; "112000"; "Decatur, GA"; "https://facebook.com/marketplace/item/sample2"];
      ["19800"; "2017"; "Nissan"; "Altima"; "62000"; "Sandy Springs, GA"; "https://facebook.com/marketplace/item/sample3"];
      ["13200"; "2014"; "Chevrolet"; "Malibu"; "89000"; "Marietta, GA"; "https://facebook.com/marketplace/item/sample4"];
      ["21500"; "2018"; "Ford"; "Fusion"; "45000"; "Roswell, GA"; "https://facebook.com/marketplace/item/sample5"];
      ["10800"; "2013"; "Hyundai"; "Elantra"; "95000"; "Alpharetta, GA"; "https://facebook.com/marketplace/item/sample6"];
      ["17200"; "2016"; "Mazda"; "Mazda3"; "68000"; "Dunwoody, GA"; "https://facebook.com/marketplace/item/sample7"];
      ["12900"; "2014"; "Kia"; "Optima"; "82000"; "Brookhaven, GA"; "https://facebook.com/marketplace/item/sample8"] ]%string.

(** The value of a run of decimal digits read after [acc]. *)
Definition digits_value (acc : Z) (s : pystr) : Z :=
  fold_left (fun a c => 10 * a + Char.digit_value c) s acc.

(** The estimated value before the three truncations. *)
Definition estimated_value (current_year : Z) (make : pystr) (year_int listing_price : Z) : Q :=
  (inject_Z listing_price * 1.12 * brand_factor make
   * age_factor (current_year - year_int))%Q.


(** The first sample listing with another price. *)
Definition civic_at (price : string) : record :=
  map u [price; "2015"; "Honda"; "Civic"; "78000"; "Atlanta, GA";
         "https://facebook.com/marketplace/item/sample1"]%string.

Arguments digit_char : simpl never.
Arguments Char.isdecimal : simpl never.
Arguments Char.digit_value : simpl never.

(** The scored entries of the records that score, in the order of the
    input. *)
Definition scored_in_order (current_year : Z) (car_listings : list record)
  : list scored :=
  flat_map (fun car => match score_car current_year car with
                       | Some s => [s]
                       | None => []
                       end) car_listings.

(** The entries of a list whose key equals [q]. *)
Definition with_key {A : Type} (key : A -> Q) (q : Q) (l : list A) : list A :=
  filter (fun x => Qeq_bool (key x) q) l.

(** ** Regular expressions

    The fragment of [re] the parser uses, matched the way [re] matches it:
    by backtracking, greedy operators first.  A match state holds the
    character before the current position (for [\b]), the text consumed so
    far (last character first), the text still ahead and the text of group
    1 once it has closed. *)
Module Re.

Inductive re :=
| Chr (p : N -> bool)   (** one character of a class *)
| Seq (a b : re)        (** [ab] *)
| Star (a : re)         (** [a*], greedy *)
| Opt (a : re)          (** [a?], greedy *)
| Group (a : re)        (** [(a)], the one capturing group *)
| Boundary.             (** [\b] *)

Record state := {
  before : option N;
  consumed : pystr;
  ahead : pystr;
  group1 : option pystr
}.

Definition is_word (c : option N) : bool :=
  match c with Some x => Char.isword x | None => false end.

(** The greedy loop of [a*]: as many rounds of [step] as possible first,
    none last. *)
Fixpoint star_loop (step : state -> list state) (fuel : nat) (st : state)
  : list state :=
  match fuel with
  | O => [st]
  | S fuel' => flat_map (star_loop step fuel') (step st) ++ [st]
  end.

(** All the ways [r] matches at a state, in the order backtracking tries
    them. *)
Fixpoint matches (r : re) (st : state) : list state :=
  match r with
  | Chr p =>
      match ahead st with
      | c :: s' =>
          if p c
          then [ {| before := Some c; consumed := c :: consumed st;
                    ahead := s'; group1 := group1 st |} ]
          else []
      | [] => []
      end
  | Seq a b => flat_map (matches b) (matches a st)
  | Star a => star_loop (matches a) (List.length (ahead st)) st
  | Opt a => matches a st ++ [st]
  | Group a =>
      map (fun st' =>
             {| before := before st';
                consumed := consumed st' ++ consumed st;
                ahead := ahead st';
                group1 := Some (rev (consumed st')) |})
          (matches a {| before := before st; consumed := [];
                        ahead := ahead st; group1 := group1 st |})
  | Boundary =>
      if xorb (is_word (before st)) (is_word (hd_error (ahead st)))
      then [st] else []
  end.

(** The result of a successful search: [group(0)] and [group(1)]. *)
Record found := { group0 : pystr; captured : option pystr }.

(** [re.search]: the first match at the leftmost position that has one. *)
Fixpoint search_from (r : re) (prev : option N) (s : pystr) : option found :=
  match matches r {| before := prev; consumed := []; ahead := s; group1 := None |} with
  | st :: _ => Some {| group0 := rev (consumed st); captured := group1 st |}
  | [] =>
      match s with
      | [] => None
      | c :: s' => search_from r (Some c) s'
      end
  end.

Definition search (r : re) (s : pystr) : option found := search_from r None s.

Definition lit (c : N) : re := Chr (N.eqb c).
Definition plus (a : re) : re := Seq a (Star a).

(** A literal word. *)
Fixpoint word (s : pystr) (tail : re) : re :=
  match s with
  | [] => tail
  | c :: s' => Seq (lit c) (word s' tail)
  end.

Definition digit : re := Chr Char.isdecimal.
Definition digit_or_comma : re := Chr (fun c => Char.isdecimal c || N.eqb c 44).
Definition space : re := Chr Char.isspace.
Definition upper_az : re := Chr (Char.between 65 90).
Definition lower_az : re := Chr (Char.between 97 122).

End Re.

(** ** The enhanced parser *)

(** [\$([0-9,]+)] *)
Definition price_pattern : Re.re :=
  Re.Seq (Re.lit 36) (Re.Group (Re.plus Re.digit_or_comma)).

(** The capturing group common to the mileage patterns: [\d+[,\d]*] in
    parentheses. *)
Definition number_group : Re.re :=
  Re.Group (Re.Seq (Re.plus Re.digit) (Re.Star Re.digit_or_comma)).

(** The four patterns of [mileage_patterns], in order; with [G] for the
    group above they are [G\s*k\s*miles?], [G\s*miles?], [G\s*k\b] and
    [G\s*mi\b]. *)
Definition mileage_patterns : list Re.re :=
  [ Re.Seq number_group
      (Re.Seq (Re.Star Re.space)
         (Re.Seq (Re.lit 107)
            (Re.Seq (Re.Star Re.space) (Re.word (u "mile") (Re.Opt (Re.lit 115))))));
    Re.Seq number_group
      (Re.Seq (Re.Star Re.space) (Re.word (u "mile") (Re.Opt (Re.lit 115))));
    Re.Seq number_group
      (Re.Seq (Re.Star Re.space) (Re.Seq (Re.lit 107) Re.Boundary));
    Re.Seq number_group
      (Re.Seq (Re.Star Re.space) (Re.word (u "mi") Re.Boundary)) ].

(** [[A-Z][a-z]+] *)
Definition capitalized : Re.re := Re.Seq Re.upper_az (Re.plus Re.lower_az).

(** [,\s*[A-Z]{2}] *)
Definition state_suffix : Re.re :=
  Re.Seq (Re.lit 44) (Re.Seq (Re.Star Re.space) (Re.Seq Re.upper_az Re.upper_az)).

(** The two patterns of [location_patterns], in order:
    [([A-Z][a-z]+,\s*[A-Z]{2})] and [([A-Z][a-z]+\s+[A-Z][a-z]+,\s*[A-Z]{2})]. *)
Definition location_patterns : list Re.re :=
  [ Re.Group (Re.Seq capitalized state_suffix);
    Re.Group (Re.Seq capitalized
                (Re.Seq (Re.plus Re.space) (Re.Seq capitalized state_suffix))) ].

Definition car_brands : list pystr :=
  map u
    [ "toyota"; "honda"; "ford"; "chevrolet"; "chevy"; "nissan"; "hyundai";
      "kia"; "mazda"; "subaru"; "volkswagen"; "vw"; "bmw"; "mercedes"; "audi";
      "lexus"; "acura"; "infiniti"; "volvo"; "jaguar"; "porsche"; "ferrari";
      "lamborghini"; "maserati"; "bentley"; "rolls-royce"; "tesla"; "lucid";
      "rivian"; "cadillac"; "lincoln"; "buick"; "gmc"; "ram"; "dodge";
      "chrysler"; "jeep"; "mitsubishi"; "genesis"; "alfa"; "fiat"; "mini";
      "land"; "rover"; "range"; "saab"; "pontiac"; "oldsmobile"; "saturn";
      "hummer"; "scion"; "isuzu"; "suzuki"; "daihatsu"; "smart" ]%string.

(** The price loop: the first token the pattern matches decides, and the
    price is its group with the commas removed. *)
Fixpoint find_price (tokens : list pystr) : option pystr :=
  match tokens with
  | [] => None
  | token :: rest =>
      match Re.search price_pattern token with
      | Some {| Re.captured := Some g |} => Some (remove_char 44 g)
      | _ => find_price rest
      end
  end.

(** A result that may be an exception leaving the function. *)
Inductive raising (A : Type) :=
| Returns (a : A)
| Raises.
Arguments Returns {A} a.
Arguments Raises {A}.

(** The year loop.  [int(token)] is applied to every four-character token
    that [isdigit] accepts, and raises [ValueError] when the token has a
    digit that is not decimal. *)
Fixpoint find_year (current_year : Z) (tokens : list pystr) : raising (option pystr) :=
  match tokens with
  | [] => Returns None
  | token :: rest =>
      if isdigit token && (List.length token =? 4)%nat
      then match py_int token with
           | None => Raises
           | Some year_num =>
               if (1990 <=? year_num) && (year_num <=? current_year)
               then Returns (Some token)
               else find_year current_year rest
           end
      else find_year current_year rest
  end.

Definition brand_key (token : pystr) : pystr :=
  remove_char 95 (remove_char 45 (lower token)).

(** The model after the make at the head of [rest]: the next token, and the
    one after it unless it starts with a dollar sign or is a number. *)
Definition model_after (rest : list pystr) : option pystr :=
  match rest with
  | [] => None
  | next :: rest' =>
      Some (title next
            ++ match rest' with
               | third :: _ =>
                   if negb (startswith_char 36 third) && negb (isdigit third)
                   then 32%N :: title third
                   else []
               | [] => []
               end)
  end.

(** The make loop: the first token that is a brand once lower-cased and
    stripped of hyphens and underscores. *)
Fixpoint find_make (tokens : list pystr) : option (pystr * option pystr) :=
  match tokens with
  | [] => None
  | token :: rest =>
      if str_in (brand_key token) car_brands
      then Some (title token, model_after rest)
      else find_make rest
  end.

(** The mileage a match stands for: [group(1)] without commas, times 1000
    when [group(0)] holds a [k] and the number is below 1000; [None] when
    [int()] raises. *)
Definition mileage_of_match (m : Re.found) : option pystr :=
  match Re.captured m with
  | None => None
  | Some g =>
      match py_int (remove_char 44 g) with
      | None => None
      | Some mileage_int =>
          if char_in 107 (Re.group0 m) && (mileage_int <? 1000)
          then Some (py_str (mileage_int * 1000))
          else Some (py_str mileage_int)
      end
  end.

(** The mileage loop: the first pattern that matches and converts. *)
Fixpoint find_mileage (patterns : list Re.re) (text_lower : pystr) : option pystr :=
  match patterns with
  | [] => None
  | pattern :: rest =>
      match Re.search pattern text_lower with
      | Some m =>
          match mileage_of_match m with
          | Some mileage => Some mileage
          | None => find_mileage rest text_lower
          end
      | None => find_mileage rest text_lower
      end
  end.

(** The location loop: the first pattern that matches. *)
Fixpoint find_location (patterns : list Re.re) (text : pystr) : pystr :=
  match patterns with
  | [] => u "Unknown"
  | pattern :: rest =>
      match Re.search pattern text with
      | Some {| Re.captured := Some g |} => g
      | _ => find_location rest text
      end
  end.

(** Truth of a string-or-[None] value. *)
Definition truthy (x : option pystr) : bool :=
  match x with
  | Some (_ :: _) => true
  | _ => false
  end.

(** The string held by a variable that is not [None]. *)
Definition the (x : option pystr) : pystr :=
  match x with
  | Some s => s
  | None => []
  end.

(** [x or "Unknown"]. *)
Definition or_unknown (x : option pystr) : pystr :=
  match x with
  | Some (c :: s) => c :: s
  | _ => u "Unknown"
  end.

(** [parse_car_text_enhanced(text, url)]: a record, [None], or the
    [ValueError] of the year loop. *)
Definition parse_car_text_enhanced (current_year : Z) (text url : pystr)
  : raising (option record) :=
  let tokens := str_split text in
  let price := find_price tokens in
  match find_year current_year tokens with
  | Raises => Raises
  | Returns year =>
      let make_model := find_make tokens in
      let make := option_map fst make_model in
      let model := match make_model with Some (_, m) => m | None => None end in
      let mileage := find_mileage mileage_patterns (lower text) in
      let location := find_location location_patterns text in
      if truthy price && truthy year && truthy make
      then Returns (Some [ the price; the year; the make;
                           or_unknown model; or_unknown mileage; location; url ])
      else Returns None
  end.

(** ** The collector: scrolling

    The page is a collaborator.  What it yields in one pass of the scrolling
    loop is either the set [current_listings] of the hrefs found by the
    selectors, or an exception raised by the scroll itself, before anything
    else in the pass has run. *)
Inductive harvest :=
| Harvested (current_listings : list pystr)
| Failed.

Record scroll_state := {
  all_listings : list pystr;
  previous_count : nat;
  no_new_count : nat
}.

Definition scroll_start : scroll_state :=
  {| all_listings := []; previous_count := 0; no_new_count := 0 |}.

(** Why the scrolling loop ended. *)
Inductive stop := Stalled | Capped | Budget.

Inductive pass :=
| Goes_on (st : scroll_state)
| Breaks (why : stop) (st : scroll_state).

(** [all_listings.update(current_listings)] on a set kept as a list without
    repetition. *)
Definition update (all current : list pystr) : list pystr :=
  ListSet.set_union (list_eq_dec N.eq_dec) all current.

(** One pass of the body of the scrolling loop. *)
Definition scroll_pass (max_listings : Z) (st : scroll_state) (h : harvest) : pass :=
  match h with
  | Failed => Goes_on st
  | Harvested current_listings =>
      let all := update (all_listings st) current_listings in
      let current_count := List.length all in
      if (current_count =? previous_count st)%nat
      then
        let no_new := S (no_new_count st) in
        if (3 <=? no_new)%nat
        then Breaks Stalled {| all_listings := all;
                               previous_count := previous_count st;
                               no_new_count := no_new |}
        else
          let st' := {| all_listings := all; previous_count := current_count;
                        no_new_count := no_new |} in
          if max_listings <=? Z.of_nat current_count
          then Breaks Capped st' else Goes_on st'
      else
        let st' := {| all_listings := all; previous_count := current_count;
                      no_new_count := 0 |} in
        if max_listings <=? Z.of_nat current_count
        then Breaks Capped st' else Goes_on st'
  end.

(** The loop [for scroll_i in range(scroll_count)] over what the page yields
    in each pass; the result carries the number of passes that ran. *)
Fixpoint scroll_loop (max_listings : Z) (page : list harvest) (st : scroll_state)
    (passes : nat) : stop * scroll_state * nat :=
  match page with
  | [] => (Budget, st, passes)
  | h :: later =>
      match scroll_pass max_listings st h with
      | Goes_on st' => scroll_loop max_listings later st' (S passes)
      | Breaks why st' => (why, st', S passes)
      end
  end.

(** The scrolling stage with a budget of [scroll_count] passes on a page
    whose [i]-th pass yields [page i]. *)
Definition scroll (max_listings : Z) (scroll_count : nat) (page : nat -> harvest)
  : stop * scroll_state * nat :=
  scroll_loop max_listings (map page (seq 0 scroll_count)) scroll_start 0.

Definition is_harvested (h : harvest) : bool :=
  match h with Harvested _ => true | Failed => false end.

(** ** The collector: extraction and content signatures *)

(** [f"{car_data[0]}_{car_data[1]}_{car_data[2]}_{car_data[3]}_{car_data[4]}"] *)
Definition car_signature (car_data : record) : pystr :=
  field 0 car_data ++ 95%N :: field 1 car_data ++ 95%N :: field 2 car_data
    ++ 95%N :: field 3 car_data ++ 95%N :: field 4 car_data.

Record extraction := {
  seen_cars : list pystr;
  car_listings : list record
}.

(** The step taken for a parsed record: kept when its signature is new. *)
Definition keep_new (st : extraction) (car_data : record) : extraction :=
  let car_signature := car_signature car_data in
  if str_in car_signature (seen_cars st) then st
  else {| seen_cars := car_signature :: seen_cars st;
          car_listings := car_listings st ++ [car_data] |}.

(** The extraction loop over the texts the page shows for the hrefs taken
    from [all_listings], in the order the loop meets them; [None] is a href
    whose element or text could not be had.  A parser exception is caught
    by the handler of the loop. *)
Fixpoint extract_loop (current_year : Z) (items : list (pystr * option pystr))
    (st : extraction) : extraction :=
  match items with
  | [] => st
  | (full_url, None) :: later => extract_loop current_year later st
  | (full_url, Some text) :: later =>
      match parse_car_text_enhanced current_year text full_url with
      | Returns (Some car_data) =>
          extract_loop current_year later (keep_new st car_data)
      | Returns None | Raises => extract_loop current_year later st
      end
  end.

(** The records a run of the extraction loop returns. *)
Definition extract (current_year : Z) (items : list (pystr * option pystr))
  : list record :=
  car_listings (extract_loop current_year items
                  {| seen_cars := []; car_listings := [] |}).

(** The deduplication alone, over records already parsed. *)
Definition dedup (cars : list record) : list record :=
  car_listings (fold_left keep_new cars {| seen_cars := []; car_listings := [] |}).

(** Two records agree on price, year, make, model and mileage. *)
Definition same_content (a b : record) : Prop :=
  forall i, (i < 5)%nat -> field i a = field i b.

(** ** What a match consumes

    [Matched r w c]: the pattern [r] can consume exactly the text [w], and
    [c] is the text of group 1 if the group closed on the way. *)
Definition later {A : Type} (old new : option A) : option A :=
  match new with Some _ => new | None => old end.

Inductive Matched : Re.re -> pystr -> option pystr -> Prop :=
| M_chr p c : p c = true -> Matched (Re.Chr p) [c] None
| M_seq a b w1 w2 c1 c2 :
    Matched a w1 c1 -> Matched b w2 c2 ->
    Matched (Re.Seq a b) (w1 ++ w2) (later c1 c2)
| M_star_stop a : Matched (Re.Star a) [] None
| M_star_more a w1 w2 c1 c2 :
    Matched a w1 c1 -> Matched (Re.Star a) w2 c2 ->
    Matched (Re.Star a) (w1 ++ w2) (later c1 c2)
| M_opt_none a : Matched (Re.Opt a) [] None
| M_opt_some a w c : Matched a w c -> Matched (Re.Opt a) w c
| M_group a w c : Matched a w c -> Matched (Re.Group a) w (Some w)
| M_boundary : Matched Re.Boundary [] None.

(** [st'] is [st] after the text [w] has been consumed and group 1 set as
    [c] says. *)
Definition advanced (st st' : Re.state) (w : pystr) (c : option pystr) : Prop :=
  Re.consumed st' = rev w ++ Re.consumed st
  /\ Re.ahead st = w ++ Re.ahead st'
  /\ Re.group1 st' = later (Re.group1 st) c.

(** A pattern without a capturing group. *)
Fixpoint groupless (r : Re.re) : bool :=
  match r with
  | Re.Chr _ | Re.Boundary => true
  | Re.Seq a b => groupless a && groupless b
  | Re.Star a | Re.Opt a => groupless a
  | Re.Group _ => false
  end.

(** The shape the four mileage patterns share: the number group, then a
    tail without a group. *)
Definition mileage_shaped (r : Re.re) : Prop :=
  exists tail, r = Re.Seq number_group tail /\ groupless tail = true.


(** The first record of a list with a given signature. *)
Definition first_with (signature : pystr) (cars : list record) : option record :=
  find (fun r => pystr_eqb (car_signature r) signature) cars.

(** The seen signatures are those of the records kept, each once. *)
Definition deduplicated (st : extraction) : Prop :=
  (forall s, In s (seen_cars st) <-> In s (map car_signature (car_listings st)))
  /\ NoDup (map car_signature (car_listings st)).

(** Three texts for the extraction loop: the first differs from the other
    two in make and model, the other two differ in their URL alone. *)
Definition colliding_items : list (pystr * option pystr) :=
  [ (u "https://www.facebook.com/marketplace/item/1", Some (u "$5 2015 Honda_ civic"));
    (u "https://www.facebook.com/marketplace/item/2", Some (u "$5 2015 Honda _civic"));
    (u "https://www.facebook.com/marketplace/item/3", Some (u "$5 2015 Honda _civic")) ].

(** ** The parser's conditions in the words of the specification *)

(** The longest prefix of a text made of characters of a class. *)
Fixpoint take_class (p : N -> bool) (s : pystr) : pystr :=
  match s with
  | c :: s' => if p c then c :: take_class p s' else []
  | [] => []
  end.

Definition digit_or_comma (c : N) : bool := Char.isdecimal c || N.eqb c 44.

(** The run of digits and commas after the first dollar sign of a token
    that is followed by one. *)
Fixpoint dollar_number (token : pystr) : option pystr :=
  match token with
  | [] => None
  | c :: rest =>
      if N.eqb 36 c
      then match take_class digit_or_comma rest with
           | [] => dollar_number rest
           | run => Some run
           end
      else dollar_number rest
  end.


(** The first token with a dollar number yields the price [p], commas
    stripped, and [p] is not empty. *)
Definition priced (tokens : list pystr) (p : pystr) : Prop :=
  exists before token after run,
    tokens = before ++ token :: after
    /\ (forall t, In t before -> dollar_number t = None)
    /\ dollar_number token = Some run
    /\ p = remove_char 44 run
    /\ p <> [].

(** A token of four decimal digits whose value is a plausible year. *)
Definition plausible_year (current_year : Z) (token : pystr) : bool :=
  (List.length token =? 4)%nat && forallb Char.isdecimal token
  && (1990 <=? digits_value 0 token) && (digits_value 0 token <=? current_year).

(** A token of four characters that [isdigit] accepts and [int] rejects:
    one with a superscript digit. *)
Definition odd_year (token : pystr) : bool :=
  (List.length token =? 4)%nat && isdigit token
  && negb (forallb Char.isdecimal token).

(** The first plausible year of the tokens is [y], and no odd token comes
    before it. *)
Definition dated (current_year : Z) (tokens : list pystr) (y : pystr) : Prop :=
  exists before after,
    tokens = before ++ y :: after
    /\ plausible_year current_year y = true
    /\ forall t, In t before ->
                 plausible_year current_year t = false /\ odd_year t = false.


(** A token of the brand vocabulary, case, hyphens and underscores apart. *)
Definition is_brand (token : pystr) : bool := str_in (brand_key token) car_brands.

(** The first brand token gives the make, title-cased, and the tokens after
    it the model. *)
Definition branded (tokens : list pystr) (make : pystr) (model : option pystr) : Prop :=
  exists before token after,
    tokens = before ++ token :: after
    /\ is_brand token = true
    /\ (forall t, In t before -> is_brand t = false)
    /\ make = title token
    /\ model = model_after after.

(** The record of a text whose tokens are priced, dated and branded. *)
Definition record_of (text url p y make : pystr) (model : option pystr) : record :=
  [ p; y; make; or_unknown model;
    or_unknown (find_mileage mileage_patterns (lower text));
    find_location location_patterns text; url ].

(** [a] may stand before [b] in a list in descending order of key. *)
Definition descending {A : Type} (key : A -> Q) (a b : A) : Prop :=
  (key b <= key a)%Q.

(** ** The simple parser *)

(** [s.startswith(prefix)]. *)
Fixpoint startswith (prefix s : pystr) : bool :=
  match prefix, s with
  | [], _ => true
  | c :: prefix', x :: s' => N.eqb c x && startswith prefix' s'
  | _ :: _, [] => false
  end.

(** [needle in s] for strings. *)
Fixpoint contains (needle s : pystr) : bool :=
  startswith needle s
  || match s with
     | [] => false
     | _ :: s' => contains needle s'
     end.

(** The brands of [parse_car_text]. *)
Definition simple_car_brands : list pystr :=
  map u
    [ "toyota"; "honda"; "ford"; "chevrolet"; "chevy"; "nissan"; "hyundai";
      "kia"; "mazda"; "subaru"; "volkswagen"; "vw"; "bmw"; "mercedes"; "audi" ]%string.

(** [([0-9,]+)] *)
Definition number_pattern : Re.re := Re.Group (Re.plus Re.digit_or_comma).

(** The price loop of [parse_car_text]: the pattern is tried on the tokens
    that hold a dollar sign. *)
Fixpoint find_price_in_dollar_tokens (tokens : list pystr) : option pystr :=
  match tokens with
  | [] => None
  | token :: rest =>
      if char_in 36 token
      then match Re.search price_pattern token with
           | Some {| Re.captured := Some g |} => Some (remove_char 44 g)
           | _ => find_price_in_dollar_tokens rest
           end
      else find_price_in_dollar_tokens rest
  end.

(** The make loop of [parse_car_text]: the first token that is a brand once
    lower-cased, and the token after it as the model. *)
Fixpoint find_make_simple (tokens : list pystr) : option (pystr * option pystr) :=
  match tokens with
  | [] => None
  | token :: rest =>
      if str_in (lower token) simple_car_brands
      then Some (title token,
                 match rest with
                 | next :: _ => Some (title next)
                 | [] => None
                 end)
      else find_make_simple rest
  end.

(** The mileage loop of [parse_car_text]: the first token with a [k] or the
    word [mile] in which the pattern finds a number; the number is taken
    times 1000 when the token has a [k] and [int()] accepts it. *)
Fixpoint find_mileage_in_tokens (tokens : list pystr) : option pystr :=
  match tokens with
  | [] => None
  | token :: rest =>
      if char_in 107 (lower token) || contains (u "mile") (lower token)
      then match Re.search number_pattern token with
           | Some {| Re.captured := Some g |} =>
               let mileage := remove_char 44 g in
               if char_in 107 (lower token)
               then match py_int mileage with
                    | Some n => Some (py_str (n * 1000))
                    | None => Some mileage
                    end
               else Some mileage
           | _ => find_mileage_in_tokens rest
           end
      else find_mileage_in_tokens rest
  end.

(** [parse_car_text(text, url)]: a record, [None], or the [ValueError] of
    the year loop. *)
Definition parse_car_text (current_year : Z) (text url : pystr)
  : raising (option record) :=
  let tokens := str_split text in
  let price := find_price_in_dollar_tokens tokens in
  match find_year current_year tokens with
  | Raises => Raises
  | Returns year =>
      let make_model := find_make_simple tokens in
      let make := option_map fst make_model in
      let model := match make_model with Some (_, m) => m | None => None end in
      let mileage := find_mileage_in_tokens tokens in
      if truthy price && truthy year && truthy make
      then Returns (Some [ the price; the year; the make;
                           or_unknown model; or_unknown mileage;
                           u "Atlanta, GA"; url ])
      else Returns None
  end.

(** The first maximal run of digits and commas of a text. *)
Fixpoint first_number (s : pystr) : option pystr :=
  match s with
  | [] => None
  | c :: rest =>
      if digit_or_comma c then Some (c :: take_class digit_or_comma rest)
      else first_number rest
  end.

(** ** Preferences and the search URL *)

(** A preference is an [int] or a [str]. *)
Inductive value :=
| Int (n : Z)
| Str (s : pystr).

(** The dictionary of preferences, as the list of its items. *)
Definition dict := list (pystr * value).

Module Dict.

(** [key in d] and [d[key]] in one: the value bound to the key, if any. *)
Fixpoint lookup (key : pystr) (d : dict) : option value :=
  match d with
  | [] => None
  | (k, v) :: d' => if pystr_eqb k key then Some v else lookup key d'
  end.

(** [d[key] = v]: the value of a key that is bound is replaced where it
    stands, a new key goes to the end. *)
Fixpoint store (key : pystr) (v : value) (d : dict) : dict :=
  match d with
  | [] => [(key, v)]
  | (k, v') :: d' =>
      if pystr_eqb k key then (k, v) :: d' else (k, v') :: store key v d'
  end.

End Dict.

(** Truth of a preference: zero and the empty string are false. *)
Definition truth (v : value) : bool :=
  match v with
  | Int n => negb (n =? 0)
  | Str [] => false
  | Str (_ :: _) => true
  end.

(** A preference inside an f-string. *)
Definition format (v : value) : pystr :=
  match v with
  | Int n => py_str n
  | Str s => s
  end.

(** [s.replace(c, new)] for a one-character [c]. *)
Definition replace_char (c : N) (new : pystr) (s : pystr) : pystr :=
  flat_map (fun x => if N.eqb x c then new else [x]) s.

(** [sep.join(l)]. *)
Fixpoint join (sep : pystr) (l : list pystr) : pystr :=
  match l with
  | [] => []
  | [x] => x
  | x :: l' => x ++ sep ++ join sep l'
  end.

(** What a row of the preferences file binds its key to: the number when
    [int()] accepts the text, the text otherwise. *)
Definition convert (text : pystr) : value :=
  match py_int text with
  | Some n => Int n
  | None => Str text
  end.

(** The body of the loop of [read_preferences] for one row of the file. *)
Definition read_row (preferences : dict) (line : list pystr) : dict :=
  match line with
  | key :: value :: _ => Dict.store key (convert value) preferences
  | _ => preferences
  end.

Definition get_default_preferences : dict :=
  [ (u "Minimum Mileage", Int 0);
    (u "Maximum Mileage", Int 200000);
    (u "Minimum Price", Int 250);
    (u "Maximum Price", Int 55000);
    (u "Minimum Year", Int 1995);
    (u "Maximum Year", Int 2020);
    (u "Scroll Down Length", Int 10);
    (u "Search Term", Str []);
    (u "Location", Str (u "atlanta"));
    (u "Make", Str []);
    (u "Model", Str []);
    (u "Transmission", Str []);
    (u "Fuel Type", Str []);
    (u "Body Style", Str []);
    (u "Condition", Str []);
    (u "Seller Type", Str []);
    (u "Sort By", Str (u "creation_time_descend"));
    (u "Radius", Str (u "20")) ].

(** [read_preferences]: the rows the CSV reader yields, or [None] for a file
    that is missing or that cannot be read to its end. *)
Definition read_preferences (file : option (list (list pystr))) : dict :=
  match file with
  | Some rows => fold_left read_row rows []
  | None => get_default_preferences
  end.

Definition param_mapping : list (pystr * pystr) :=
  [ (u "Minimum Price", u "minPrice");
    (u "Maximum Price", u "maxPrice");
    (u "Minimum Mileage", u "minMileage");
    (u "Maximum Mileage", u "maxMileage");
    (u "Minimum Year", u "minYear");
    (u "Maximum Year", u "maxYear");
    (u "Radius", u "radius") ].

Definition filter_mapping : list (pystr * pystr) :=
  [ (u "Make", u "make");
    (u "Model", u "model");
    (u "Transmission", u "transmission");
    (u "Fuel Type", u "fuel_type");
    (u "Body Style", u "body_style");
    (u "Condition", u "condition");
    (u "Seller Type", u "seller_type");
    (u "Sort By", u "sortBy") ].

(** [pref_key in preferences and preferences[pref_key]]: the value when the
    key is bound to a true one. *)
Definition held (preferences : dict) (pref_key : pystr) : option value :=
  match Dict.lookup pref_key preferences with
  | Some v => if truth v then Some v else None
  | None => None
  end.

(** The loop over [param_mapping]: what it appends to [params]. *)
Fixpoint basic_params (preferences : dict) (mapping : list (pystr * pystr))
  : list pystr :=
  match mapping with
  | [] => []
  | (pref_key, url_param) :: rest =>
      match held preferences pref_key with
      | Some param_value =>
          (url_param ++ 61%N :: format param_value) :: basic_params preferences rest
      | None => basic_params preferences rest
      end
  end.

(** The loop over [filter_mapping]: what it appends to [params], or the
    [AttributeError] of [.lower()] on a number. *)
Fixpoint filter_params (preferences : dict) (mapping : list (pystr * pystr))
  : raising (list pystr) :=
  match mapping with
  | [] => Returns []
  | (pref_key, url_param) :: rest =>
      match held preferences pref_key with
      | Some (Int _) => Raises
      | Some (Str s) =>
          match filter_params preferences rest with
          | Returns params =>
              Returns ((url_param ++ 61%N :: replace_char 32 (u "_") (lower s)) :: params)
          | Raises => Raises
          end
      | None => filter_params preferences rest
      end
  end.

Definition marketplace : pystr := u "https://www.facebook.com/marketplace/".

(** [build_facebook_url(preferences)]: the URL, or the [AttributeError] of a
    string method called on a number. *)
Definition build_facebook_url (preferences : dict) : raising pystr :=
  let location :=
    match Dict.lookup (u "Location") preferences with
    | Some v => v
    | None => Str (u "atlanta")
    end in
  match (match Dict.lookup (u "Search Term") preferences with
         | Some v => v
         | None => Str []
         end) with
  | Int _ => Raises
  | Str s =>
      let search_term := strip Char.isspace s in
      let '(base_url, params) :=
        match search_term with
        | _ :: _ =>
            (marketplace ++ format location ++ u "/search?",
             [u "query=" ++ replace_char 32 (u "%20") search_term])
        | [] => (marketplace ++ format location ++ u "/vehicles?", [])
        end in
      match filter_params preferences filter_mapping with
      | Raises => Raises
      | Returns filters =>
          Returns (base_url
                   ++ join (u "&")
                        (params ++ basic_params preferences param_mapping
                           ++ filters ++ [u "exact=false"]))
      end
  end.

(** The value of the last row of a file that binds a key. *)
Fixpoint last_value (key : pystr) (rows : list (list pystr)) : option pystr :=
  match rows with
  | [] => None
  | line :: rest =>
      match last_value key rest with
      | Some value => Some value
      | None =>
          match line with
          | k :: value :: _ => if pystr_eqb k key then Some value else None
          | _ => None
          end
      end
  end.

(** ** The results file *)

(** An element of a scored entry: the rounded ratio, a string, or the list
    of market prices. *)
Inductive cell :=
| Ratio (q : Q)
| Text (s : pystr)
| Prices (l : list Z).

(** A scored entry as the flat list the scorer builds:
    [[round(ratio, 3), condition, deal_quality] + car + [market_prices]]. *)
Definition entry (s : scored) : list cell :=
  [Ratio (ratio3 s); Text (condition s); Text (deal_quality s)]
    ++ map Text (car s) ++ [Prices (market_prices s)].

Definition header : list pystr :=
  map u [ "Deal_Ratio"; "Condition"; "Deal_Quality"; "Listing_Price"; "Year"; "Make";
          "Model"; "Mileage"; "Location"; "Facebook_URL"; "Market_Prices" ]%string.

(** The join of [f"${p}"] for [p] in [car[10]]: over the prices of a list,
    over the characters of a string; a float cannot be iterated over, and
    [None] is the [TypeError]. *)
Definition dollar_join (c : cell) : option pystr :=
  match c with
  | Prices l => Some (join (u ",") (map (fun p => 36%N :: py_str p) l))
  | Text s => Some (join (u ",") (map (fun p => [36%N; p]) s))
  | Ratio _ => None
  end.

(** The row [save_results_to_csv] writes for an entry, if it writes one:
    none for an entry of fewer than ten elements and none when building the
    row raises. *)
Definition csv_row (car : list cell) : option (list cell) :=
  if (10 <=? List.length car)%nat
  then
    match (if (10 <? List.length car)%nat
           then dollar_join (nth 10 car (Text []))
           else Some (u "N/A")) with
    | Some market_prices => Some (firstn 10 car ++ [Text market_prices])
    | None => None
    end
  else None.

(** [save_results_to_csv(car_listings)] as the rows it hands to the writer
    of the file once the file is open: the header, then a row for each
    entry that has one. *)
Definition save_results_to_csv (car_listings : list (list cell)) : list (list cell) :=
  map Text header
    :: flat_map (fun car => match csv_row car with
                            | Some row => [row]
                            | None => []
                            end) car_listings.

(** ** The collector as a whole *)

(** What [page.goto] comes to: no response, a response with its status, or
    an exception. *)
Inductive navigation :=
| No_response
| Status (status_code : Z)
| Navigation_failed.

(** The browser and the page as the collector meets them. *)
Record browser := {
  (** [PLAYWRIGHT_AVAILABLE] *)
  playwright_available : bool;
  (** [safe_browser_page] yields a page and not [None] *)
  page_launched : bool;
  goto : pystr -> navigation;
  (** the text of the page for the login check; [None] when reading it
      raises *)
  inner_text : option pystr;
  (** what each pass of the scrolling loop yields *)
  passes : nat -> harvest;
  (** [list(all_listings)]: the set in the order it is iterated in *)
  listed : list pystr -> list pystr;
  (** the inner text of the element found for a href; [None] when no
      element is found or the search raises *)
  link_text : pystr -> option pystr
}.

(** The login check on the text of the page. *)
Definition login_required (page_text : option pystr) : bool :=
  match page_text with
  | Some t => contains (u "log in") (lower t) || contains (u "sign up") (lower t)
  | None => false
  end.

(** [l[:n]] *)
Definition slice_to {A : Type} (n : Z) (l : list A) : list A :=
  if n <? 0 then firstn (Z.to_nat (Z.of_nat (List.length l) + n)) l
  else firstn (Z.to_nat n) l.

Definition full_url (href : pystr) : pystr :=
  if startswith_char 47 href then u "https://www.facebook.com" ++ href else href.

(** What the extraction loop has in hand for a href: the URL of the record
    and the stripped text of its element. *)
Definition item_of (b : browser) (href : pystr) : pystr * option pystr :=
  (full_url href, option_map (strip Char.isspace) (link_text b href)).

(** [scrape_facebook_marketplace_safe(url, scroll_count, max_listings)].
    The scroll count is a preference, a number or a string; [range()] of a
    string raises, and the handler around the whole function returns the
    sample data. *)
Definition scrape_facebook_marketplace_safe (current_year : Z) (b : browser)
    (url : pystr) (scroll_count : value) (max_listings : Z) : list record :=
  if negb (playwright_available b) then sample_cars
  else if negb (page_launched b) then sample_cars
  else
    match goto b url with
    | No_response | Navigation_failed => sample_cars
    | Status status_code =>
        if negb (status_code =? 200) then sample_cars
        else if login_required (inner_text b) then sample_cars
        else
          match scroll_count with
          | Str _ => sample_cars
          | Int n =>
              let '(_, st, _) := scroll max_listings (Z.to_nat n) (passes b) in
              match all_listings st with
              | [] => sample_cars
              | _ :: _ =>
                  match extract current_year
                          (map (item_of b)
                             (slice_to max_listings (listed b (all_listings st)))) with
                  | [] => sample_cars
                  | car_listings => car_listings
                  end
              end
          end
    end.

(** [run_search_fallback(preferences)]: [None], or the rows of the results
    file with the scored entries; the [AttributeError] of
    [build_facebook_url] leaves the function. *)
Definition run_search_fallback (current_year : Z) (b : browser) (preferences : dict)
  : raising (option (list (list cell) * list scored)) :=
  match build_facebook_url preferences with
  | Raises => Raises
  | Returns facebook_url =>
      let scroll_count :=
        match Dict.lookup (u "Scroll Down Length") preferences with
        | Some v => v
        | None => Int 10
        end in
      let max_listings := 500 in
      match scrape_facebook_marketplace_safe current_year b facebook_url
              scroll_count max_listings with
      | [] => Returns None
      | car_listings =>
          let final_listings := calculate_deal_scores current_year car_listings in
          Returns (Some (save_results_to_csv (map entry final_listings), final_listings))
      end
  end.

(** What a pass adds to the accumulator. *)
Definition harvested (h : harvest) : list pystr :=
  match h with
  | Harvested current_listings => current_listings
  | Failed => []
  end.

(** The records the parser returns for the items of the extraction loop,
    in the order of the items. *)
Definition parsed (current_year : Z) (items : list (pystr * option pystr))
  : list record :=
  flat_map (fun item =>
              match item with
              | (full_url, Some text) =>
                  match parse_car_text_enhanced current_year text full_url with
                  | Returns (Some car_data) => [car_data]
                  | _ => []
                  end
              | (_, None) => []
              end) items.

(** The accumulator the scrolling stage ends with. *)
Definition scrolled (max_listings : Z) (scroll_count : nat) (page : nat -> harvest)
  : list pystr :=
  all_listings (snd (fst (scroll max_listings scroll_count page))).

(** ** Preferences asked for at the prompt *)

(** What the user types at the thirteen prompts of
    [get_user_search_preferences_fallback], in their order. *)
Module Prompt.

Record answers := {
  search_term : pystr;
  location : pystr;
  min_price : pystr;
  max_price : pystr;
  min_year : pystr;
  max_year : pystr;
  max_mileage : pystr;
  make : pystr;
  model : pystr;
  transmission : pystr;
  fuel_type : pystr;
  body_style : pystr;
  scroll_count : pystr
}.

End Prompt.

(** An answer kept as text when it is not empty. *)
Definition answer_text (key : pystr) (answer : pystr) (preferences : dict) : dict :=
  match strip Char.isspace answer with
  | [] => preferences
  | text => Dict.store key (Str text) preferences
  end.

(** An answer kept as a number when it is not empty and [int()] accepts it;
    the [ValueError] is caught and the default stays. *)
Definition answer_number (key : pystr) (answer : pystr) (preferences : dict) : dict :=
  match strip Char.isspace answer with
  | [] => preferences
  | text =>
      match py_int text with
      | Some n => Dict.store key (Int n) preferences
      | None => preferences
      end
  end.

(** An answer kept, lower-cased, when it is one of the choices. *)
Definition answer_choice (key : pystr) (choices : list pystr) (answer : pystr)
    (preferences : dict) : dict :=
  match strip Char.isspace answer with
  | [] => preferences
  | text =>
      if str_in (lower text) choices
      then Dict.store key (Str (lower text)) preferences
      else preferences
  end.

Definition get_user_search_preferences_fallback (a : Prompt.answers) : dict :=
  let preferences := get_default_preferences in
  let preferences := answer_text (u "Search Term") (Prompt.search_term a) preferences in
  let preferences := answer_text (u "Location") (Prompt.location a) preferences in
  let preferences := answer_number (u "Minimum Price") (Prompt.min_price a) preferences in
  let preferences := answer_number (u "Maximum Price") (Prompt.max_price a) preferences in
  let preferences := answer_number (u "Minimum Year") (Prompt.min_year a) preferences in
  let preferences := answer_number (u "Maximum Year") (Prompt.max_year a) preferences in
  let preferences := answer_number (u "Maximum Mileage") (Prompt.max_mileage a) preferences in
  let preferences := answer_text (u "Make") (Prompt.make a) preferences in
  let preferences := answer_text (u "Model") (Prompt.model a) preferences in
  let preferences :=
    answer_choice (u "Transmission") (map u ["automatic"; "manual"]%string)
      (Prompt.transmission a) preferences in
  let preferences :=
    answer_choice (u "Fuel Type") (map u ["gas"; "hybrid"; "electric"; "diesel"]%string)
      (Prompt.fuel_type a) preferences in
  let preferences :=
    answer_choice (u "Body Style")
      (map u ["sedan"; "suv"; "coupe"; "hatchback"; "truck"; "convertible"]%string)
      (Prompt.body_style a) preferences in
  answer_number (u "Scroll Down Length") (Prompt.scroll_count a) preferences.

(** The keys whose values [build_facebook_url] calls string methods on. *)
Definition text_keys : list pystr :=
  u "Search Term" :: map fst filter_mapping.

(** The keys the prompts store a number under. *)
Definition number_keys : list pystr :=
  map u [ "Minimum Price"; "Maximum Price"; "Minimum Year"; "Maximum Year";
          "Maximum Mileage"; "Scroll Down Length" ]%string.

(** No text key is bound to a number. *)
Definition texts_are_text (preferences : dict) : Prop :=
  forall key n, In key text_keys -> Dict.lookup key preferences <> Some (Int n).

(** The non-interactive branch of [main] up to the display of the results:
    the preferences are read, and the search run on them. *)
Definition main_non_interactive (current_year : Z) (b : browser)
    (file : option (list (list pystr)))
  : raising (option (list (list cell) * list scored)) :=
  run_search_fallback current_year b (read_preferences file).

(** * Theorems *)

(** ** Facts about the string and number layer *)

Lemma pystr_eqb_eq a b : pystr_eqb a b = true <-> a = b.
Proof.
  unfold pystr_eqb. destruct (list_eq_dec N.eq_dec a b); split; congruence.
Qed.

Lemma pystr_eqb_refl a : pystr_eqb a a = true.
Proof. now apply pystr_eqb_eq. Qed.

Lemma digit_group_decimal s : forall acc count after,
  forallb Char.isdecimal s = true -> s <> [] ->
  digit_group acc count after s
  = Some (digits_value acc s, (count + List.length s)%nat).
Proof.
  induction s as [|c s IH]; intros acc count after Hall Hne; [congruence|].
  simpl in Hall. apply andb_prop in Hall as [Hc Hs].
  simpl. rewrite Hc. destruct s as [|d s'].
  - simpl. do 2 f_equal. lia.
  - rewrite IH by (assumption || discriminate).
    do 2 f_equal. simpl. lia.
Qed.

Lemma lstrip_id p s :
  forallb (fun c => negb (p c)) s = true -> lstrip p s = s.
Proof.
  destruct s as [|c s]; simpl; [reflexivity|].
  intros H. apply andb_prop in H as [H _].
  destruct (p c); [discriminate | reflexivity].
Qed.

Lemma strip_id p s :
  forallb (fun c => negb (p c)) s = true -> strip p s = s.
Proof.
  intros H. unfold strip. rewrite (lstrip_id p s H).
  rewrite lstrip_id, rev_involutive; [reflexivity|].
  rewrite forallb_forall in *. intros x Hx. apply H. now apply in_rev.
Qed.

Lemma decimal_not_numspace c :
  Char.isdecimal c = true -> Char.isnumspace c = false.
Proof.
  unfold Char.isdecimal, Char.isnumspace, Char.between. intros H.
  apply andb_prop in H as [H1 H2].
  apply N.leb_le in H1. apply N.leb_le in H2.
  repeat (apply orb_false_intro); try (apply N.eqb_neq; lia).
  apply andb_false_intro2. apply N.leb_gt. lia.
Qed.

Lemma decimal_digits_app fuel : forall n acc,
  decimal_digits fuel n acc = decimal_digits fuel n [] ++ acc.
Proof.
  induction fuel as [|fuel IH]; intros n acc; simpl; [reflexivity|].
  destruct (n <? 10); [reflexivity|].
  rewrite IH. rewrite (IH _ [_]). now rewrite <- app_assoc.
Qed.

Lemma digit_char_decimal n :
  0 <= n -> Char.isdecimal (digit_char n) = true.
Proof.
  intros Hn. pose proof (Z.mod_pos_bound n 10 ltac:(lia)) as Hm.
  unfold Char.isdecimal, Char.between, digit_char.
  apply andb_true_intro; split; apply N.leb_le; lia.
Qed.

Lemma digit_char_value n :
  0 <= n -> Char.digit_value (digit_char n) = n mod 10.
Proof.
  intros Hn. pose proof (Z.mod_pos_bound n 10 ltac:(lia)) as Hm.
  unfold Char.digit_value, digit_char. lia.
Qed.


Lemma decimal_digits_decimal fuel : forall n,
  0 <= n -> forallb Char.isdecimal (decimal_digits fuel n []) = true.
Proof.
  induction fuel as [|fuel IH]; intros n Hn; simpl; [reflexivity|].
  destruct (n <? 10).
  - simpl. now rewrite digit_char_decimal.
  - rewrite decimal_digits_app, forallb_app, IH by (apply Z.div_pos; lia).
    simpl. now rewrite digit_char_decimal.
Qed.

Lemma decimal_digits_nonempty fuel n : decimal_digits (S fuel) n [] <> [].
Proof.
  simpl. destruct (n <? 10); [discriminate|].
  rewrite decimal_digits_app. intros H. apply app_eq_nil in H as [_ H]. discriminate.
Qed.

Lemma digits_value_app acc s t :
  digits_value acc (s ++ t) = digits_value (digits_value acc s) t.
Proof. unfold digits_value. now rewrite fold_left_app. Qed.

Lemma decimal_digits_value fuel : forall n,
  0 <= n < 2 ^ Z.of_nat fuel ->
  digits_value 0 (decimal_digits fuel n []) = n.
Proof.
  induction fuel as [|fuel IH]; intros n Hn.
  - simpl in *. lia.
  - rewrite Nat2Z.inj_succ, Z.pow_succ_r in Hn by lia.
    cbn [decimal_digits]. destruct (Z.ltb_spec n 10) as [Hlt|Hge].
    + unfold digits_value. cbn [fold_left]. rewrite digit_char_value by lia.
      rewrite Z.mod_small; lia.
    + assert (Hq : 0 <= n / 10 < 2 ^ Z.of_nat fuel).
      { split; [apply Z.div_pos; lia|].
        apply Z.div_lt_upper_bound; [lia|].
        pose proof (Z.pow_pos_nonneg 2 (Z.of_nat fuel) ltac:(lia) ltac:(lia)). lia. }
      rewrite decimal_digits_app, digits_value_app, (IH _ Hq).
      unfold digits_value. cbn [fold_left]. rewrite digit_char_value by lia.
      pose proof (Z.div_mod n 10 ltac:(lia)). lia.
Qed.

Lemma log2_fuel n : 0 <= n -> n < 2 ^ Z.of_nat (S (Z.to_nat (Z.log2 n))).
Proof.
  intros Hn. rewrite Nat2Z.inj_succ, Z2Nat.id by apply Z.log2_nonneg.
  destruct (Z.eq_dec n 0) as [->|Hz]; [reflexivity|].
  apply Z.log2_spec. lia.
Qed.

Lemma int_of_decimal_digits n :
  0 <= n ->
  let s := decimal_digits (S (Z.to_nat (Z.log2 n))) n [] in
  strip Char.isnumspace s = s
  /\ (exists c r, s = c :: r /\ Char.isdecimal c = true)
  /\ digit_group 0 0 false s = Some (n, List.length s).
Proof.
  intros Hn s.
  assert (Hdec : forallb Char.isdecimal s = true)
    by (apply decimal_digits_decimal; assumption).
  assert (Hne : s <> []) by apply decimal_digits_nonempty.
  repeat split.
  - apply strip_id. rewrite forallb_forall in *. intros x Hx.
    now rewrite decimal_not_numspace by auto.
  - destruct s as [|c r]; [congruence|]. exists c, r. split; [reflexivity|].
    simpl in Hdec. now apply andb_prop in Hdec.
  - rewrite digit_group_decimal by assumption. unfold s.
    rewrite decimal_digits_value; [reflexivity|].
    split; [assumption | now apply log2_fuel].
Qed.

Lemma decimal_head_not_sign c :
  Char.isdecimal c = true -> c <> 43%N /\ c <> 45%N.
Proof.
  unfold Char.isdecimal, Char.between. intros H.
  apply andb_prop in H as [H _]. apply N.leb_le in H. lia.
Qed.

(** [int(str(n)) == n]: the decimal text of an integer reads back as it. *)
Lemma py_int_py_str n : py_int (py_str n) = Some n.
Proof.
  unfold py_int, py_str. destruct (Z.ltb_spec n 0) as [Hneg|Hpos].
  - destruct (int_of_decimal_digits (- n) ltac:(lia)) as (Hstrip & (c & r & Hs & Hc) & Hg).
    set (s := decimal_digits _ _ _) in *.
    assert (Hs' : strip Char.isnumspace (45%N :: s) = 45%N :: s).
    { apply strip_id. simpl. rewrite forallb_forall. intros x Hx.
      pose proof (decimal_digits_decimal (S (Z.to_nat (Z.log2 (- n)))) (- n) ltac:(lia)) as Hd.
      rewrite forallb_forall in Hd. now rewrite decimal_not_numspace by auto. }
    rewrite Hs'. simpl. rewrite Hg. simpl. f_equal. lia.
  - destruct (int_of_decimal_digits n Hpos) as (Hstrip & (c & r & Hs & Hc) & Hg).
    set (s := decimal_digits _ _ _) in *.
    rewrite Hstrip. rewrite Hs in *.
    destruct (decimal_head_not_sign c Hc) as [H1 H2].
    unfold signed.
    destruct c as [|p]; [now rewrite Hg|].
    do 8 (destruct p as [p|p|]; try (now rewrite Hg); try congruence).
Qed.

(** ** Facts about the valuation estimator *)

Lemma py_trunc_nonneg q : (0 <= q)%Q -> py_trunc q = Qfloor q.
Proof.
  destruct q as [n d]. unfold Qle, py_trunc, Qfloor. simpl. intros H.
  apply Z.quot_div_nonneg; lia.
Qed.


Lemma py_trunc_le x y : (0 <= x)%Q -> (x <= y)%Q -> py_trunc x <= py_trunc y.
Proof.
  intros Hx Hxy. rewrite !py_trunc_nonneg by lra. now apply Qfloor_resp_le.
Qed.


Lemma py_max_lower a b : (a <= py_max a b)%Q.
Proof.
  unfold py_max. destruct (Qle_bool b a) eqn:E; [lra|].
  assert (~ (b <= a)%Q) by (rewrite <- Qle_bool_iff; congruence). lra.
Qed.

Lemma age_factor_lower age : (0.75 <= age_factor age)%Q.
Proof. apply py_max_lower. Qed.

Lemma estimate_numeric cy make model year price p y :
  py_int price = Some p -> py_int year = Some y ->
  get_market_pricing_estimate cy make model year price
  = [ py_trunc (estimated_value cy make y p * 0.85);
      py_trunc (estimated_value cy make y p * 0.98);
      py_trunc (estimated_value cy make y p * 1.12) ].
Proof.
  intros Hp Hy. unfold get_market_pricing_estimate. now rewrite Hp, Hy.
Qed.



Lemma brand_factor_bounds make : (1 <= brand_factor make <= 1.08)%Q.
Proof.
  unfold brand_factor.
  destruct (str_in (lower make) premium_brands);
    [|destruct (str_in (lower make) reliable_brands)]; lra.
Qed.

Lemma estimated_value_nonneg cy make y p :
  0 <= p -> (0 <= estimated_value cy make y p)%Q.
Proof.
  intros Hp. unfold estimated_value.
  pose proof (brand_factor_bounds make) as [Hb _].
  pose proof (age_factor_lower (cy - y)) as Ha.
  assert (Hq : (0 <= inject_Z p)%Q) by (rewrite Zle_Qle in Hp; exact Hp).
  repeat apply Qmult_le_0_compat; lra.
Qed.






(** ** Facts about the deal ratio *)

Lemma py_trunc_whole q p : (q == inject_Z p)%Q -> py_trunc q = p.
Proof.
  destruct q as [n d]. unfold Qeq, py_trunc. simpl. intros H.
  rewrite Z.mul_1_r in H. subst n. apply Z.quot_mul. lia.
Qed.


Lemma score_ratio_whole_price cy car price p y :
  (4 <= List.length car)%nat ->
  py_float (field 0 car) = Some (Finite price) ->
  (price == inject_Z p)%Q -> p <> 0 ->
  car_year car = Some y ->
  score_ratio cy car
  = Some {| s_price := price;
            s_market_prices :=
              get_market_pricing_estimate cy (field 2 car) (field 3 car) (py_str y) (py_str p);
            s_condition := fst (mileage_condition (car_mileage car));
            s_condition_factor := snd (mileage_condition (car_mileage car));
            s_ratio :=
              (inject_Z (sumZ (get_market_pricing_estimate cy (field 2 car)
                                 (field 3 car) (py_str y) (py_str p)))
               / inject_Z 3
               * snd (mileage_condition (car_mileage car)) / price)%Q |}.
Proof.
  intros Hlen Hprice Hwhole Hnz Hyear. unfold score_ratio.
  destruct (Nat.ltb_spec (List.length car) 4) as [Hlt|_]; [lia|].
  rewrite Hprice, Hyear.
  cbn [int_of_float]. rewrite (py_trunc_whole _ _ Hwhole).
  destruct (mileage_condition (car_mileage car)) as [cond cf] eqn:Hcond.
  assert (Hq : Qeq_bool price 0 = false).
  { destruct (Qeq_bool price 0) eqn:E; [|reflexivity].
    apply Qeq_bool_eq in E. rewrite Hwhole in E.
    exfalso. apply Hnz. unfold Qeq in E. simpl in E. lia. }
  rewrite Hq. cbn [fst snd].
  rewrite (estimate_numeric cy _ _ _ _ p y (py_int_py_str p) (py_int_py_str y)).
  reflexivity.
Qed.




(** ** Facts about the sort *)

Section SortFacts.
Context {A : Type} (key : A -> Q).

Lemma insert_desc_perm x l : Permutation (x :: l) (insert_desc key x l).
Proof.
  induction l as [|y l IH]; simpl; [reflexivity|].
  destruct (Qle_bool (key y) (key x)); [reflexivity|].
  rewrite perm_swap. now constructor.
Qed.

Lemma sort_desc_perm l : Permutation l (sort_desc key l).
Proof.
  induction l as [|x l IH]; simpl; [constructor|].
  rewrite <- insert_desc_perm. now constructor.
Qed.

Lemma insert_desc_sorted x l :
  StronglySorted (descending key) l -> StronglySorted (descending key) (insert_desc key x l).
Proof.
  induction 1 as [|y l Hs IH Hy]; simpl.
  - repeat constructor.
  - destruct (Qle_bool (key y) (key x)) eqn:E.
    + apply Qle_bool_iff in E. constructor; [now constructor|].
      constructor; [exact E|].
      rewrite Forall_forall in *. intros z Hz. unfold descending in *.
      specialize (Hy z Hz). lra.
    + assert (Hlt : (key x < key y)%Q).
      { apply Qnot_le_lt. rewrite <- Qle_bool_iff. congruence. }
      constructor; [exact IH|].
      rewrite Forall_forall in *. intros z Hz.
      apply (Permutation_in z (Permutation_sym (insert_desc_perm x l))) in Hz.
      destruct Hz as [<-|Hz]; [unfold descending; lra | now apply Hy].
Qed.

Lemma sort_desc_sorted l : StronglySorted (descending key) (sort_desc key l).
Proof.
  induction l as [|x l IH]; simpl; [constructor | now apply insert_desc_sorted].
Qed.

Lemma insert_desc_with_key q x l :
  with_key key q (insert_desc key x l) = with_key key q (x :: l).
Proof.
  induction l as [|y l IH]; [reflexivity|].
  cbn [insert_desc]. destruct (Qle_bool (key y) (key x)) eqn:E; [reflexivity|].
  unfold with_key in *. cbn [filter] in *. rewrite IH.
  destruct (Qeq_bool (key x) q) eqn:Ex, (Qeq_bool (key y) q) eqn:Ey; try reflexivity.
  apply Qeq_bool_eq in Ex, Ey.
  assert (Hle : (key y <= key x)%Q) by (rewrite Ex, Ey; apply Qle_refl).
  apply Qle_bool_iff in Hle. congruence.
Qed.

Lemma sort_desc_with_key q l :
  with_key key q (sort_desc key l) = with_key key q l.
Proof.
  induction l as [|x l IH]; [reflexivity|].
  cbn [sort_desc fold_right]. rewrite insert_desc_with_key.
  unfold with_key in *. cbn [filter]. fold (sort_desc key l). now rewrite IH.
Qed.
End SortFacts.

(** ** Facts about the scorer *)

Lemma score_loop_in_order cy cars : forall acc,
  score_loop cy cars acc = acc ++ scored_in_order cy cars.
Proof.
  induction cars as [|c cars IH]; intros acc; simpl.
  - now rewrite app_nil_r.
  - destruct (score_car cy c); rewrite IH; [now rewrite <- app_assoc | reflexivity].
Qed.

Lemma scored_in_order_app cy l1 l2 :
  scored_in_order cy (l1 ++ l2) = scored_in_order cy l1 ++ scored_in_order cy l2.
Proof. unfold scored_in_order. apply flat_map_app. Qed.

Lemma score_car_keeps_car cy c s : score_car cy c = Some s -> car s = c.
Proof.
  unfold score_car. destruct (score_ratio cy c); [|discriminate].
  intros H. injection H as <-. reflexivity.
Qed.

Lemma in_scored_in_order cy cars s :
  In s (scored_in_order cy cars) <-> exists c, In c cars /\ score_car cy c = Some s.
Proof.
  unfold scored_in_order. rewrite in_flat_map. split.
  - intros (c & Hc & Hs). exists c. split; [assumption|].
    destruct (score_car cy c); [|contradiction].
    destruct Hs as [->|[]]. reflexivity.
  - intros (c & Hc & Hs). exists c. split; [assumption|].
    rewrite Hs. now left.
Qed.

(** C3.  The list returned by [calculate_deal_scores] is in descending
    order of the stored deal ratio, and the entries of any one ratio appear
    in the order in which their records stood in the input. *)
Theorem calculate_deal_scores_sorted_stable cy cars :
  StronglySorted (fun a b => (ratio3 b <= ratio3 a)%Q) (calculate_deal_scores cy cars)
  /\ forall q,
       with_key ratio3 q (calculate_deal_scores cy cars)
       = with_key ratio3 q (scored_in_order cy cars).
Proof.
  unfold calculate_deal_scores. rewrite score_loop_in_order. cbn [app]. split.
  - apply sort_desc_sorted.
  - intros q. apply sort_desc_with_key.
Qed.

Lemma score_ratio_short cy c : (List.length c < 4)%nat -> score_ratio cy c = None.
Proof.
  intros H. unfold score_ratio.
  destruct (Nat.ltb_spec (List.length c) 4); [reflexivity | lia].
Qed.

Lemma score_ratio_bad_price cy c :
  py_float (field 0 c) = None -> score_ratio cy c = None.
Proof.
  intros H. unfold score_ratio. rewrite H. now destruct (_ <? _)%nat.
Qed.

Lemma score_ratio_zero_price cy c q :
  py_float (field 0 c) = Some (Finite q) -> (q == 0)%Q -> score_ratio cy c = None.
Proof.
  intros H Hz. unfold score_ratio. rewrite H.
  destruct (_ <? _)%nat; [reflexivity|].
  destruct (car_year c); [|reflexivity]. cbn [int_of_float].
  destruct (mileage_condition (car_mileage c)).
  apply Qeq_bool_iff in Hz. now rewrite Hz.
Qed.

Lemma calculate_deal_scores_in_order cy cars :
  calculate_deal_scores cy cars = sort_desc ratio3 (scored_in_order cy cars).
Proof. unfold calculate_deal_scores. now rewrite score_loop_in_order. Qed.

(** C9.  [calculate_deal_scores] has a result for every list of records (it
    is a total function: each point of the loop body that can raise leads to
    the handler, and the final sort compares floats only).  A record that
    fails - fewer than four fields, a price that [float()] rejects, a price of
    zero, or any other failure of its own scoring - is dropped, and the result
    is the one the list without it would give.  The result is a rearrangement
    of the entries of the records that score, each entry carrying the one
    input record it was computed from. *)
Theorem calculate_deal_scores_robust cy :
  (forall c, (List.length c < 4)%nat -> score_car cy c = None)
  /\ (forall c, py_float (field 0 c) = None -> score_car cy c = None)
  /\ (forall c q, py_float (field 0 c) = Some (Finite q) -> (q == 0)%Q ->
                  score_car cy c = None)
  /\ (forall l1 bad l2,
         score_car cy bad = None ->
         calculate_deal_scores cy (l1 ++ bad :: l2)
         = calculate_deal_scores cy (l1 ++ l2))
  /\ (forall cars,
         Permutation (scored_in_order cy cars) (calculate_deal_scores cy cars)
         /\ (List.length (calculate_deal_scores cy cars) <= List.length cars)%nat
         /\ forall s, In s (calculate_deal_scores cy cars) ->
                      In (car s) cars /\ score_car cy (car s) = Some s).
Proof.
  repeat split.
  - intros c H. unfold score_car. now rewrite score_ratio_short.
  - intros c H. unfold score_car. now rewrite score_ratio_bad_price.
  - intros c q H Hz. unfold score_car. now rewrite (score_ratio_zero_price cy c q).
  - intros l1 bad l2 H. rewrite !calculate_deal_scores_in_order.
    rewrite !scored_in_order_app. unfold scored_in_order at 2.
    cbn [flat_map]. now rewrite H.
  - rewrite calculate_deal_scores_in_order. apply sort_desc_perm.
  - rewrite calculate_deal_scores_in_order.
    rewrite <- (Permutation_length (sort_desc_perm ratio3 _)).
    unfold scored_in_order. induction cars as [|c cars IH]; simpl; [lia|].
    rewrite length_app. destruct (score_car cy c); simpl; lia.
  - rewrite calculate_deal_scores_in_order in H.
    apply (Permutation_in s (Permutation_sym (sort_desc_perm ratio3 _))) in H.
    apply in_scored_in_order in H as (c & Hc & Hs).
    now rewrite (score_car_keeps_car cy c s Hs).
  - rewrite calculate_deal_scores_in_order in H.
    apply (Permutation_in s (Permutation_sym (sort_desc_perm ratio3 _))) in H.
    apply in_scored_in_order in H as (c & Hc & Hs).
    now rewrite (score_car_keeps_car cy c s Hs).
Qed.

Lemma calculate_deal_scores_robust_witness :
  score_car 2025 (map u ["0"; "2015"; "Honda"; "Civic"; "78000"]%string) = None
  /\ calculate_deal_scores 2025
       ([civic_at "14500"] ++ map u ["0"; "2015"; "Honda"; "Civic"; "78000"]%string
          :: [civic_at "14000"])
     = calculate_deal_scores 2025 ([civic_at "14500"] ++ [civic_at "14000"]).
Proof.
  split; [reflexivity|].
  apply (proj1 (proj2 (proj2 (proj2 (calculate_deal_scores_robust 2025))))).
  reflexivity.
Defined.

(** ** Mileage and condition *)

(** The thresholds for a mileage that converts and is not zero. *)
Lemma mileage_condition_thresholds m :
  m <> 0 ->
  mileage_condition (Some m)
  = if m <? 50000 then (u "Excellent", 1.0%Q)
    else if m <? 80000 then (u "Good", 0.92%Q)
    else if m <? 120000 then (u "Fair", 0.85%Q)
    else (u "Poor", 0.75%Q).
Proof.
  intros H. unfold mileage_condition.
  destruct (Z.eqb_spec m 0); [contradiction | reflexivity].
Qed.

Lemma mileage_condition_boundaries :
  mileage_condition (Some 49999) = (u "Excellent", 1.0%Q)
  /\ mileage_condition (Some 50000) = (u "Good", 0.92%Q)
  /\ mileage_condition (Some 80000) = (u "Fair", 0.85%Q)
  /\ mileage_condition (Some 120000) = (u "Poor", 0.75%Q)
  /\ mileage_condition None = (u "Unknown", 0.90%Q).
Proof. repeat split. Qed.

(** C2 at the failing input.  A record whose mileage field is the numeric
    text [0] converts to the mileage 0, which is below 50,000; the scorer
    nevertheless labels it Unknown with factor 0.90, because [if mileage:]
    is false for zero. *)
Theorem zero_mileage_scored_unknown :
  let car0 := map u ["14500"; "2015"; "Honda"; "Civic"; "0"; "Atlanta, GA"; "url"]%string in
  car_mileage car0 = Some 0
  /\ (0 <? 50000) = true
  /\ mileage_condition (car_mileage car0) = (u "Unknown", 0.90%Q)
  /\ exists s, score_car 2025 car0 = Some s /\ condition s = u "Unknown".
Proof.
  cbv zeta. repeat split. eexists. split; [vm_compute; reflexivity | reflexivity].
Qed.

(** ** Facts about the regular expressions *)

Lemma later_none {A} (x : option A) : later x None = x.
Proof. reflexivity. Qed.

Lemma later_fresh {A} (x : option A) : later None x = x.
Proof. now destruct x. Qed.

Lemma later_assoc {A} (x y z : option A) : later (later x y) z = later x (later y z).
Proof. now destruct z. Qed.

Lemma advanced_refl st : advanced st st [] None.
Proof. now repeat split. Qed.

Lemma advanced_trans st1 st2 st3 w1 w2 c1 c2 :
  advanced st1 st2 w1 c1 -> advanced st2 st3 w2 c2 ->
  advanced st1 st3 (w1 ++ w2) (later c1 c2).
Proof.
  intros (H1 & H2 & H3) (H4 & H5 & H6). repeat split.
  - now rewrite H4, H1, rev_app_distr, app_assoc.
  - now rewrite H2, H5, app_assoc.
  - now rewrite H6, H3, later_assoc.
Qed.

Section StarSound.
Variable a : Re.re.
Hypothesis body_sound : forall st st',
  In st' (Re.matches a st) -> exists w c, Matched a w c /\ advanced st st' w c.

Lemma star_loop_sound fuel : forall st st',
  In st' (Re.star_loop (Re.matches a) fuel st) ->
  exists w c, Matched (Re.Star a) w c /\ advanced st st' w c.
Proof.
  induction fuel as [|fuel IH]; intros st st' Hin; simpl in Hin.
  - destruct Hin as [<-|[]]. exists [], None.
    split; [constructor | apply advanced_refl].
  - apply in_app_or in Hin as [Hin|[<-|[]]].
    + apply in_flat_map in Hin as (st1 & H1 & H2).
      destruct (body_sound _ _ H1) as (w1 & c1 & Hm1 & Ha1).
      destruct (IH _ _ H2) as (w2 & c2 & Hm2 & Ha2).
      exists (w1 ++ w2), (later c1 c2).
      split; [now constructor | now apply (advanced_trans st st1 st')].
    + exists [], None. split; [constructor | apply advanced_refl].
Qed.
End StarSound.

(** Every way the matcher finds is a match of the pattern: it consumed a
    text of the pattern from the front of what was ahead. *)
Lemma matches_sound r : forall st st',
  In st' (Re.matches r st) -> exists w c, Matched r w c /\ advanced st st' w c.
Proof.
  induction r as [p|a IHa b IHb|a IHa|a IHa|a IHa|]; intros st st' Hin; simpl in Hin.
  - destruct (Re.ahead st) as [|x s'] eqn:E; [contradiction|].
    destruct (p x) eqn:Hp; [|contradiction].
    destruct Hin as [<-|[]]. exists [x], None.
    split; [now constructor|]. now repeat split.
  - apply in_flat_map in Hin as (st1 & H1 & H2).
    destruct (IHa _ _ H1) as (w1 & c1 & Hm1 & Ha1).
    destruct (IHb _ _ H2) as (w2 & c2 & Hm2 & Ha2).
    exists (w1 ++ w2), (later c1 c2).
    split; [now constructor | now apply (advanced_trans st st1 st')].
  - now apply (star_loop_sound a IHa) in Hin.
  - apply in_app_or in Hin as [Hin|[<-|[]]].
    + destruct (IHa _ _ Hin) as (w & c & Hm & Ha).
      exists w, c. split; [now constructor | assumption].
    + exists [], None. split; [constructor | apply advanced_refl].
  - apply in_map_iff in Hin as (st1 & <- & H1).
    destruct (IHa _ _ H1) as (w & c & Hm & (Hc & Hah & _)).
    simpl in Hc, Hah. rewrite app_nil_r in Hc.
    exists w, (Some w). split; [now apply (M_group a w c)|].
    split; [|split]; simpl; [now rewrite Hc | assumption |].
    now rewrite Hc, rev_involutive.
  - destruct (xorb _ _); [|contradiction].
    destruct Hin as [<-|[]]. exists [], None.
    split; [constructor | apply advanced_refl].
Qed.

(** A successful search found a match of the pattern inside the text. *)
Lemma search_from_sound r : forall s prev f,
  Re.search_from r prev s = Some f ->
  exists pre post,
    s = pre ++ Re.group0 f ++ post /\ Matched r (Re.group0 f) (Re.captured f).
Proof.
  induction s as [|x s IH]; intros prev f H; simpl in H.
  - destruct (Re.matches r _) as [|st l] eqn:E; [discriminate|].
    injection H as <-.
    destruct (matches_sound r _ st (eq_ind_r (fun l' => In st l') (in_eq st l) E))
      as (w & c & Hm & (Hc & Ha & Hg)).
    simpl in *. rewrite app_nil_r in Hc. rewrite Hc, rev_involutive.
    exists [], (Re.ahead st). split; [exact Ha|]. now rewrite Hg, later_fresh.
  - destruct (Re.matches r _) as [|st l] eqn:E.
    + destruct (IH _ _ H) as (pre & post & Hs & Hm).
      exists (x :: pre), post. split; [now rewrite Hs | assumption].
    + injection H as <-.
      destruct (matches_sound r _ st (eq_ind_r (fun l' => In st l') (in_eq st l) E))
        as (w & c & Hm & (Hc & Ha & Hg)).
      simpl in *. rewrite app_nil_r in Hc. rewrite Hc, rev_involutive.
      exists [], (Re.ahead st). split; [exact Ha|]. now rewrite Hg, later_fresh.
Qed.

Lemma groupless_no_capture r w c :
  Matched r w c -> groupless r = true -> c = None.
Proof.
  induction 1 as [| a b w1 w2 c1 c2 _ IH1 _ IH2 | | a w1 w2 c1 c2 _ IH1 _ IH2
                 | | a w c _ IH | |]; simpl; intros Hg; try reflexivity.
  - apply andb_prop in Hg as [Ha Hb]. now rewrite (IH1 Ha), (IH2 Hb).
  - now rewrite (IH1 Hg), (IH2 Hg).
  - now apply IH.
  - discriminate.
Qed.

Lemma matched_class_star p w c :
  Matched (Re.Star (Re.Chr p)) w c -> forallb p w = true.
Proof.
  remember (Re.Star (Re.Chr p)) as r eqn:Hr. induction 1; try discriminate.
  - reflexivity.
  - injection Hr as ->. inversion H as [q x Hq| | | | | | |]; subst.
    rewrite forallb_app. simpl. rewrite IHMatched2 by reflexivity.
    now rewrite Hq.
Qed.

(** The text of the number group: a decimal digit, then digits and commas. *)
Lemma number_group_text w c :
  Matched number_group w c ->
  exists d rest,
    c = Some (d :: rest) /\ w = d :: rest /\ Char.isdecimal d = true
    /\ forallb (fun x => Char.isdecimal x || N.eqb x 44) rest = true.
Proof.
  unfold number_group, Re.plus, Re.digit, Re.digit_or_comma.
  intros H. inversion H as [| | | | | |a w0 c0 Hin|]; subst.
  inversion Hin as [|a b w1 w2 c1 c2 Hp Hs| | | | | |]; subst.
  inversion Hp as [|a b w3 w4 c3 c4 Hd Hds| | | | | |]; subst.
  inversion Hd; subst.
  apply matched_class_star in Hds. apply matched_class_star in Hs.
  exists c, (w4 ++ w2). repeat split; try assumption.
  rewrite forallb_app, Hs, andb_true_r.
  rewrite forallb_forall in *. intros x Hx. now rewrite (Hds x Hx).
Qed.

Lemma remove_commas_decimal s :
  forallb (fun x => Char.isdecimal x || N.eqb x 44) s = true ->
  forallb Char.isdecimal (remove_char 44 s) = true.
Proof.
  induction s as [|x s IH]; [reflexivity|]. simpl. intros H.
  apply andb_prop in H as [Hx Hs]. destruct (N.eqb_spec x 44) as [->|Hne]; simpl.
  - now apply IH.
  - rewrite orb_false_r in Hx. now rewrite Hx, IH.
Qed.

Lemma py_int_decimal s :
  forallb Char.isdecimal s = true -> s <> [] ->
  py_int s = Some (digits_value 0 s).
Proof.
  intros Hdec Hne. unfold py_int.
  rewrite strip_id
    by (rewrite forallb_forall in *; intros x Hx;
        now rewrite decimal_not_numspace by auto).
  destruct s as [|c r]; [congruence|].
  assert (Hc : Char.isdecimal c = true) by (simpl in Hdec; now apply andb_prop in Hdec).
  destruct (decimal_head_not_sign c Hc) as [H1 H2].
  assert (Hg : digit_group 0 0 false (c :: r) = Some (digits_value 0 (c :: r), List.length (c :: r)))
    by (now rewrite digit_group_decimal).
  unfold signed.
  destruct c as [|p]; [now rewrite Hg|].
  do 8 (destruct p as [p|p|]; try (now rewrite Hg); try congruence).
Qed.

(** [int()] never raises on the group of a mileage match, and the mileage
    is the number, multiplied by 1000 exactly when the match holds a [k]
    and the number is below 1000. *)
Lemma mileage_match_converts r t m :
  mileage_shaped r -> Re.search r t = Some m ->
  exists g v,
    Re.captured m = Some g
    /\ py_int (remove_char 44 g) = Some v
    /\ mileage_of_match m
       = Some (py_str (if char_in 107 (Re.group0 m) && (v <? 1000)
                       then v * 1000 else v)).
Proof.
  intros (tail & -> & Htail) Hs.
  apply search_from_sound in Hs as (pre & post & _ & Hm).
  inversion Hm as [|a b w1 w2 c1 c2 Hg Ht Ha Hw Hc| | | | | |].
  rewrite (groupless_no_capture _ _ _ Ht Htail) in *.
  destruct (number_group_text _ _ Hg) as (d & rest & -> & -> & Hd & Hrest).
  assert (Hdec : forallb Char.isdecimal (remove_char 44 (d :: rest)) = true).
  { apply remove_commas_decimal. simpl. now rewrite Hd, Hrest. }
  assert (Hne : remove_char 44 (d :: rest) <> []).
  { simpl. destruct (N.eqb_spec d 44) as [->|_]; [discriminate Hd | discriminate]. }
  exists (d :: rest), (digits_value 0 (remove_char 44 (d :: rest))).
  cbn [later] in *. split; [reflexivity|]. split; [now apply py_int_decimal|].
  unfold mileage_of_match. rewrite <- Hc, <- Hw.
  rewrite (py_int_decimal _ Hdec Hne).
  now destruct (char_in 107 _ && _).
Qed.

Lemma find_mileage_first t m x : forall before pattern after,
  (forall r, In r before -> Re.search r t = None) ->
  Re.search pattern t = Some m -> mileage_of_match m = Some x ->
  find_mileage (before ++ pattern :: after) t = Some x.
Proof.
  induction before as [|r before IH]; intros pattern after Hnone Hs Hx; simpl.
  - now rewrite Hs, Hx.
  - rewrite (Hnone r (or_introl eq_refl)). apply IH; auto.
    intros r' Hr'. apply Hnone. now right.
Qed.

Lemma mileage_patterns_shaped : Forall mileage_shaped mileage_patterns.
Proof. repeat constructor; eexists; split; reflexivity. Qed.

(** ** Facts about the parser *)

Lemma py_str_nonempty n : py_str n <> [].
Proof.
  unfold py_str. destruct (n <? 0); [discriminate | apply decimal_digits_nonempty].
Qed.

Lemma or_unknown_some s : s <> [] -> or_unknown (Some s) = s.
Proof. destruct s; [congruence | reflexivity]. Qed.

(** The fields of a returned record, read off the finders. *)
Lemma parse_returns_fields cy text url r :
  parse_car_text_enhanced cy text url = Returns (Some r) ->
  exists year,
    find_year cy (str_split text) = Returns year
    /\ truthy (find_price (str_split text)) = true
    /\ truthy year = true
    /\ truthy (option_map fst (find_make (str_split text))) = true
    /\ r = [ the (find_price (str_split text));
             the year;
             the (option_map fst (find_make (str_split text)));
             or_unknown (match find_make (str_split text) with
                         | Some (_, m) => m
                         | None => None
                         end);
             or_unknown (find_mileage mileage_patterns (lower text));
             find_location location_patterns text;
             url ].
Proof.
  unfold parse_car_text_enhanced.
  destruct (find_year cy (str_split text)) as [year|]; [|discriminate].
  destruct (truthy (find_price _)) eqn:Hp; [|discriminate].
  destruct (truthy year) eqn:Hy; [|discriminate].
  destruct (truthy (option_map fst _)) eqn:Hm; [|discriminate].
  simpl. intros H. injection H as <-. exists year. repeat split; assumption.
Qed.

Lemma find_mileage_none t : forall patterns,
  (forall r, In r patterns -> Re.search r t = None) ->
  find_mileage patterns t = None.
Proof.
  induction patterns as [|r patterns IH]; intros H; [reflexivity|].
  simpl. rewrite (H r (or_introl eq_refl)). apply IH.
  intros r' Hr'. apply H. now right.
Qed.

(** C5.  The mileage comes from the first of the four patterns, in their
    fixed order, that matches the lower-cased text: [int()] never fails on
    its group, and the number is multiplied by 1000 exactly when the matched
    text holds a [k] and the number is below 1000.  With no pattern matching
    the mileage is Unknown.  So [85k miles] and [85000 miles] both give
    85000, and [1500k miles], already 1000 or more, stays 1500. *)
Theorem mileage_normalization (cy : Z) (text : string) (url : pystr) :
  (forall before pattern after m,
      mileage_patterns = before ++ pattern :: after ->
      (forall r, In r before -> Re.search r (lower (u text)) = None) ->
      Re.search pattern (lower (u text)) = Some m ->
      exists g v,
        Re.captured m = Some g
        /\ py_int (remove_char 44 g) = Some v
        /\ find_mileage mileage_patterns (lower (u text))
           = Some (py_str (if char_in 107 (Re.group0 m) && (v <? 1000)
                           then v * 1000 else v))
        /\ forall r,
             parse_car_text_enhanced cy (u text) url = Returns (Some r) ->
             field 4 r = py_str (if char_in 107 (Re.group0 m) && (v <? 1000)
                                 then v * 1000 else v))
  /\ ((forall r, In r mileage_patterns -> Re.search r (lower (u text)) = None) ->
      find_mileage mileage_patterns (lower (u text)) = None
      /\ forall r,
           parse_car_text_enhanced cy (u text) url = Returns (Some r) ->
           field 4 r = u "Unknown")
  /\ find_mileage mileage_patterns (lower (u "85k miles")) = Some (u "85000")
  /\ find_mileage mileage_patterns (lower (u "85000 miles")) = Some (u "85000")
  /\ find_mileage mileage_patterns (lower (u "1500k miles")) = Some (u "1500")
  /\ find_mileage mileage_patterns (lower (u "850k")) = Some (u "850000").
Proof.
  split; [|split; [|repeat split; vm_compute; reflexivity]].
  - intros before pattern after m Hpats Hnone Hs.
    assert (Hshape : mileage_shaped pattern).
    { pose proof mileage_patterns_shaped as H. rewrite Forall_forall in H.
      apply H. rewrite Hpats. apply in_elt. }
    destruct (mileage_match_converts _ _ _ Hshape Hs) as (g & v & Hg & Hv & Hm).
    exists g, v. split; [assumption|]. split; [assumption|].
    assert (Hfind : find_mileage mileage_patterns (lower (u text))
                    = Some (py_str (if char_in 107 (Re.group0 m) && (v <? 1000)
                                    then v * 1000 else v)))
      by (rewrite Hpats; now apply (find_mileage_first _ m)).
    split; [assumption|].
    intros r Hr. apply parse_returns_fields in Hr as (year & _ & _ & _ & _ & ->).
    cbn [field nth]. rewrite Hfind. apply or_unknown_some, py_str_nonempty.
  - intros Hnone.
    assert (Hfind : find_mileage mileage_patterns (lower (u text)) = None)
      by now apply find_mileage_none.
    split; [assumption|].
    intros r Hr. apply parse_returns_fields in Hr as (year & _ & _ & _ & _ & ->).
    cbn [field nth]. now rewrite Hfind.
Qed.

Lemma mileage_normalization_witness :
  exists g v,
    Re.captured {| Re.group0 := u "78k miles"; Re.captured := Some (u "78") |} = Some g
    /\ py_int (remove_char 44 g) = Some v
    /\ find_mileage mileage_patterns
         (lower (u "2015 Honda Civic $14,500 78k miles Atlanta, GA"))
       = Some (py_str (if char_in 107 (u "78k miles") && (v <? 1000)
                       then v * 1000 else v))
    /\ forall r,
         parse_car_text_enhanced 2025
           (u "2015 Honda Civic $14,500 78k miles Atlanta, GA") (u "url")
         = Returns (Some r) ->
         field 4 r = py_str (if char_in 107 (u "78k miles") && (v <? 1000)
                             then v * 1000 else v).
Proof.
  apply (proj1 (mileage_normalization 2025
                  "2015 Honda Civic $14,500 78k miles Atlanta, GA" (u "url"))
           [] (hd Re.Boundary mileage_patterns) (tl mileage_patterns)
           {| Re.group0 := u "78k miles"; Re.captured := Some (u "78") |}).
  - reflexivity.
  - intros r [].
  - vm_compute. reflexivity.
Defined.

Lemma find_year_first cy token rest y :
  isdigit token = true -> List.length token = 4%nat -> py_int token = Some y ->
  1990 <= y <= cy ->
  find_year cy (token :: rest) = Returns (Some token).
Proof.
  intros Hd Hl Hi [H1 H2]. cbn [find_year]. rewrite Hd, Hl, Hi.
  cbn [Nat.eqb andb].
  destruct (Z.leb_spec 1990 y); [|lia]. destruct (Z.leb_spec y cy); [|lia].
  reflexivity.
Qed.

(** C10.  In any year from 2015 on, the text
    [2015 Honda Civic $14,500 78k miles Atlanta, GA] parses to the record
    with price 14500, year 2015, make Honda, model Civic, mileage 78000 and
    location [Atlanta, GA], followed by the source URL. *)
Theorem parse_worked_example cy url :
  2015 <= cy ->
  parse_car_text_enhanced cy (u "2015 Honda Civic $14,500 78k miles Atlanta, GA") url
  = Returns (Some [ u "14500"; u "2015"; u "Honda"; u "Civic"; u "78000";
                    u "Atlanta, GA"; url ]).
Proof.
  intros Hcy. unfold parse_car_text_enhanced.
  set (text := u "2015 Honda Civic $14,500 78k miles Atlanta, GA").
  assert (Htokens : str_split text
                    = [ u "2015"; u "Honda"; u "Civic"; u "$14,500"; u "78k";
                        u "miles"; u "Atlanta,"; u "GA" ]) by (vm_compute; reflexivity).
  rewrite Htokens.
  rewrite (find_year_first cy (u "2015") _ 2015)
    by (reflexivity || lia).
  replace (find_price _) with (Some (u "14500")) by (vm_compute; reflexivity).
  replace (find_make _) with (Some (u "Honda", Some (u "Civic")))
    by (vm_compute; reflexivity).
  replace (find_mileage mileage_patterns (lower text)) with (Some (u "78000"))
    by (vm_compute; reflexivity).
  replace (find_location location_patterns text) with (u "Atlanta, GA")
    by (vm_compute; reflexivity).
  reflexivity.
Qed.

Lemma parse_worked_example_witness :
  2015 <= 2025
  /\ parse_car_text_enhanced 2025
       (u "2015 Honda Civic $14,500 78k miles Atlanta, GA") (u "https://x/item/1")
     = Returns (Some [ u "14500"; u "2015"; u "Honda"; u "Civic"; u "78000";
                       u "Atlanta, GA"; u "https://x/item/1" ]).
Proof.
  split; [lia|]. apply (parse_worked_example 2025 (u "https://x/item/1")). lia.
Defined.

(** ** Facts about the scrolling loop *)





(** The loop runs at most one pass per element of the budget, and a full
    run is the only way to end on the budget. *)
Lemma scroll_loop_bounded max page : forall st n why st' n',
  scroll_loop max page st n = (why, st', n') ->
  (n <= n' <= n + List.length page)%nat
  /\ (why = Budget -> n' = (n + List.length page)%nat).
Proof.
  induction page as [|h page IH]; intros st n why st' n' H; cbn [scroll_loop] in H.
  - injection H as <- <- <-. simpl. split; [lia | intros _; lia].
  - destruct (scroll_pass max st h) as [st1|why1 st1] eqn:E.
    + apply IH in H as [H1 H2]. simpl. split; [lia | intros Hw; rewrite (H2 Hw); lia].
    + injection H as <- <- <-. simpl. split; [lia|]. intros ->.
      destruct h as [c|]; cbn [scroll_pass] in E; [|discriminate].
      repeat match type of E with
             | context [if ?b then _ else _] => destruct b
             end; discriminate.
Qed.


(** The state and the reason at the end do not depend on the pass counter. *)
Lemma scroll_loop_counter max page : forall st n m,
  fst (scroll_loop max page st n) = fst (scroll_loop max page st m).
Proof.
  induction page as [|h page IH]; intros st n m; [reflexivity|].
  cbn [scroll_loop]. destruct (scroll_pass max st h); [apply IH | reflexivity].
Qed.

(** Passes that fail leave no trace: the loop ends for the same reason and
    in the same state as on the page without them. *)
Lemma scroll_loop_skips_failed max page : forall st n,
  fst (scroll_loop max page st n)
  = fst (scroll_loop max (filter is_harvested page) st n).
Proof.
  induction page as [|h page IH]; intros st n; [reflexivity|].
  destruct h as [c|]; cbn [filter is_harvested scroll_loop].
  - destruct (scroll_pass max st (Harvested c)); [apply IH | reflexivity].
  - cbn [scroll_pass]. rewrite IH. apply scroll_loop_counter.
Qed.







(** ** Facts about the content signatures *)

Lemma same_content_signature a b :
  same_content a b -> car_signature a = car_signature b.
Proof.
  intros H. unfold car_signature.
  now rewrite (H 0%nat), (H 1%nat), (H 2%nat), (H 3%nat), (H 4%nat) by lia.
Qed.

Lemma str_in_In x xs : str_in x xs = true <-> In x xs.
Proof.
  unfold str_in. rewrite existsb_exists. split.
  - intros (y & Hy & E). apply pystr_eqb_eq in E. now subst.
  - intros H. exists x. split; [assumption | apply pystr_eqb_refl].
Qed.

Lemma keep_new_deduplicated st c : deduplicated st -> deduplicated (keep_new st c).
Proof.
  intros [Hseen Hnodup]. unfold keep_new.
  destruct (str_in (car_signature c) (seen_cars st)) eqn:E; [now split|].
  assert (Hnew : ~ In (car_signature c) (seen_cars st))
    by (rewrite <- str_in_In; congruence).
  split; cbn [seen_cars car_listings]; rewrite map_app; cbn [map].
  - intros s. rewrite in_app_iff. cbn [In]. rewrite Hseen. tauto.
  - apply NoDup_app; [assumption | repeat constructor; intros [] |].
    intros s Hs [<-|[]]. apply Hnew. now apply Hseen.
Qed.

Lemma fold_keep_new cars : forall st,
  deduplicated st ->
  deduplicated (fold_left keep_new cars st)
  /\ forall c,
       In c (car_listings (fold_left keep_new cars st))
       <-> In c (car_listings st)
           \/ (~ In (car_signature c) (seen_cars st)
               /\ first_with (car_signature c) cars = Some c).
Proof.
  induction cars as [|x cars IH]; intros st Hst.
  - split; [assumption|]. intros c. simpl. split; [tauto|].
    intros [H|[_ H]]; [assumption | discriminate].
  - cbn [fold_left]. destruct (IH (keep_new st x) (keep_new_deduplicated st x Hst))
      as [Hd Hin].
    split; [assumption|]. intros c. rewrite Hin. clear Hin IH.
    unfold first_with. cbn [find]. unfold keep_new.
    destruct (str_in (car_signature x) (seen_cars st)) eqn:E.
    + apply str_in_In in E.
      destruct (pystr_eqb (car_signature x) (car_signature c)) eqn:Ex.
      * apply pystr_eqb_eq in Ex. rewrite <- Ex. split; [|intros [H|[H _]]; tauto].
        intros [H|[H _]]; [now left | contradiction].
      * tauto.
    + assert (Hnew : ~ In (car_signature x) (seen_cars st))
        by (rewrite <- str_in_In; congruence).
      cbn [seen_cars car_listings]. rewrite in_app_iff. cbn [In].
      destruct (pystr_eqb (car_signature x) (car_signature c)) eqn:Ex.
      * apply pystr_eqb_eq in Ex. split.
        -- intros [[H|[->|[]]]|[H _]]; [now left | right | tauto].
           split; [congruence | reflexivity].
        -- intros [H|[_ H]]; [now left; left|]. injection H as ->. left; right; now left.
      * assert (Hne : car_signature x <> car_signature c)
          by (rewrite <- pystr_eqb_eq; congruence).
        split.
        -- intros [[H|[->|[]]]|[H1 H2]]; [now left | congruence | right].
           split; [tauto | assumption].
        -- intros [H|[H1 H2]]; [now left; left | right].
           split; [intros [H|H]; [congruence | contradiction] | assumption].
Qed.

(** What the deduplication keeps: of the records of one signature exactly
    the first, so no two kept records share a signature. *)
Lemma dedup_keeps_first cars :
  NoDup (map car_signature (dedup cars))
  /\ forall c, In c (dedup cars) <-> first_with (car_signature c) cars = Some c.
Proof.
  unfold dedup.
  destruct (fold_keep_new cars {| seen_cars := []; car_listings := [] |})
    as [[_ Hnodup] Hin].
  - split; [intros s; simpl; tauto | constructor].
  - split; [assumption|]. intros c. rewrite Hin. simpl. tauto.
Qed.

(** C8 at the failing input.  The three texts of [colliding_items] parse to
    three records; the second and third agree on price, year, make, model
    and mileage and differ in their URL alone; the first has another make
    and another model, yet the same underscore-joined signature.  The
    extraction keeps the first alone: the output has no entry for the pair
    that agrees on all five fields. *)
Theorem signature_collision_drops_record :
  let r1 := map u ["5"; "2015"; "Honda_"; "Civic"; "Unknown"; "Unknown";
                   "https://www.facebook.com/marketplace/item/1"]%string in
  let r2 := map u ["5"; "2015"; "Honda"; "_Civic"; "Unknown"; "Unknown";
                   "https://www.facebook.com/marketplace/item/2"]%string in
  let r3 := map u ["5"; "2015"; "Honda"; "_Civic"; "Unknown"; "Unknown";
                   "https://www.facebook.com/marketplace/item/3"]%string in
  map (fun item => match item with
                   | (url, Some text) => parse_car_text_enhanced 2025 text url
                   | (_, None) => Returns None
                   end) colliding_items
  = [Returns (Some r1); Returns (Some r2); Returns (Some r3)]
  /\ same_content r2 r3
  /\ ~ same_content r1 r2
  /\ car_signature r1 = car_signature r2
  /\ extract 2025 colliding_items = [r1]
  /\ dedup [r1; r2; r3] = [r1]
  /\ ~ In r2 (extract 2025 colliding_items)
  /\ ~ In r3 (extract 2025 colliding_items).
Proof.
  cbv zeta. split; [vm_compute; reflexivity|].
  split.
  { intros i Hi. do 5 (destruct i as [|i]; [reflexivity|]). lia. }
  split.
  { intros H. specialize (H 2%nat ltac:(lia)). vm_compute in H. discriminate H. }
  split; [vm_compute; reflexivity|].
  assert (E : extract 2025 colliding_items
              = [map u ["5"; "2015"; "Honda_"; "Civic"; "Unknown"; "Unknown";
                        "https://www.facebook.com/marketplace/item/1"]%string])
    by (vm_compute; reflexivity).
  rewrite E. split; [reflexivity|]. split; [vm_compute; reflexivity|].
  split; intros [H|[]]; vm_compute in H; discriminate H.
Qed.

(** ** The price pattern, match by match *)

Lemma matches_chr p b c a g :
  Re.matches (Re.Chr p) {| Re.before := b; Re.consumed := c; Re.ahead := a; Re.group1 := g |}
  = match a with
    | x :: a' =>
        if p x
        then [ {| Re.before := Some x; Re.consumed := x :: c; Re.ahead := a';
                  Re.group1 := g |} ]
        else []
    | [] => []
    end.
Proof. reflexivity. Qed.

Lemma matches_seq a b st :
  Re.matches (Re.Seq a b) st = flat_map (Re.matches b) (Re.matches a st).
Proof. reflexivity. Qed.

Lemma matches_star a st :
  Re.matches (Re.Star a) st = Re.star_loop (Re.matches a) (List.length (Re.ahead st)) st.
Proof. reflexivity. Qed.

Lemma matches_group a st :
  Re.matches (Re.Group a) st
  = map (fun st' =>
           {| Re.before := Re.before st';
              Re.consumed := Re.consumed st' ++ Re.consumed st;
              Re.ahead := Re.ahead st';
              Re.group1 := Some (rev (Re.consumed st')) |})
        (Re.matches a {| Re.before := Re.before st; Re.consumed := [];
                         Re.ahead := Re.ahead st; Re.group1 := Re.group1 st |}).
Proof. reflexivity. Qed.

Lemma star_loop_class p : forall fuel st,
  (List.length (Re.ahead st) <= fuel)%nat ->
  exists hd tl,
    Re.star_loop (Re.matches (Re.Chr p)) fuel st = hd :: tl
    /\ Re.consumed hd = rev (take_class p (Re.ahead st)) ++ Re.consumed st
    /\ Re.group1 hd = Re.group1 st.
Proof.
  induction fuel as [|fuel IH]; intros [b c a g] Hlen; cbn [Re.ahead Re.consumed Re.group1] in *.
  - destruct a; [|simpl in Hlen; lia]. eexists _, []. now repeat split.
  - cbn [Re.star_loop]. rewrite matches_chr.
    destruct a as [|x a]; [|cbn [take_class]; destruct (p x) eqn:Hp].
    + eexists _, []. now repeat split.
    + destruct (IH {| Re.before := Some x; Re.consumed := x :: c; Re.ahead := a; Re.group1 := g |})
        as (hd & tl & E & Hc & Hg); [simpl in *; lia|].
      cbn [flat_map]. rewrite app_nil_r, E.
      eexists _, _. split; [reflexivity|]. cbn [Re.ahead Re.consumed Re.group1] in *.
      rewrite Hc. cbn [rev]. rewrite <- app_assoc. now split.
    + eexists _, []. now repeat split.
Qed.


Lemma price_matches_none b c a g :
  match a with
  | x :: d :: _ => N.eqb 36 x && digit_or_comma d = false
  | _ => True
  end ->
  Re.matches price_pattern
    {| Re.before := b; Re.consumed := c; Re.ahead := a; Re.group1 := g |} = [].
Proof.
  intros H. unfold price_pattern, Re.lit, Re.plus, Re.digit_or_comma.
  rewrite matches_seq, matches_chr.
  destruct a as [|x [|d a]]; [reflexivity|..].
  - destruct (N.eqb 36 x); reflexivity.
  - destruct (N.eqb 36 x); [|reflexivity]. cbn [flat_map].
    rewrite matches_group, matches_seq. cbn [Re.before Re.ahead Re.group1].
    rewrite matches_chr. unfold digit_or_comma in H. simpl in H. rewrite H. reflexivity.
Qed.

Lemma price_matches_some b c d a g :
  digit_or_comma d = true ->
  exists hd tl,
    Re.matches price_pattern
      {| Re.before := b; Re.consumed := c; Re.ahead := 36%N :: d :: a; Re.group1 := g |}
    = hd :: tl
    /\ rev (Re.consumed hd) = rev c ++ 36%N :: d :: take_class digit_or_comma a
    /\ Re.group1 hd = Some (d :: take_class digit_or_comma a).
Proof.
  intros Hd. unfold price_pattern, Re.lit, Re.plus, Re.digit_or_comma.
  rewrite matches_seq, matches_chr. cbn [N.eqb Pos.eqb flat_map].
  rewrite app_nil_r, matches_group, matches_seq.
  cbn [Re.before Re.ahead Re.group1 Re.consumed].
  rewrite matches_chr. unfold digit_or_comma in Hd. rewrite Hd.
  cbn [flat_map]. rewrite app_nil_r, matches_star. cbn [Re.ahead].
  destruct (star_loop_class (fun c0 => Char.isdecimal c0 || (c0 =? 44)%N) (List.length a)
              {| Re.before := Some d; Re.consumed := [d]; Re.ahead := a; Re.group1 := g |}
              (le_n _)) as (hd & tl & E & Hc & Hg).
  rewrite E. cbn [map]. eexists _, _. split; [reflexivity|].
  cbn [Re.consumed Re.group1 Re.ahead] in *. rewrite Hc.
  unfold digit_or_comma.
  rewrite !rev_app_distr, !rev_involutive. cbn [rev app]. 
  rewrite <- !app_assoc. split; reflexivity.
Qed.

Lemma price_search : forall s prev,
  Re.search_from price_pattern prev s
  = option_map (fun run => {| Re.group0 := 36%N :: run; Re.captured := Some run |})
      (dollar_number s).
Proof.
  induction s as [|x rest IH]; intros prev.
  - cbn [Re.search_from]. now rewrite price_matches_none.
  - cbn [dollar_number Re.search_from].
    destruct (N.eqb_spec 36 x) as [<-|Hne].
    + destruct rest as [|d a].
      * rewrite price_matches_none by exact I. cbn [take_class].
        cbn [Re.search_from]. now rewrite price_matches_none.
      * cbn [take_class]. destruct (digit_or_comma d) eqn:Hd.
        -- destruct (price_matches_some prev [] d a None Hd) as (hd & tl & E & Hc & Hg).
           rewrite E, Hc, Hg. reflexivity.
        -- rewrite price_matches_none by (simpl; assumption). apply IH.
    + rewrite price_matches_none; [apply IH|].
      destruct rest; [exact I|]. apply N.eqb_neq in Hne. now rewrite Hne.
Qed.

(** ** The three finders and the conditions of the specification *)

Lemma find_price_step token rest :
  find_price (token :: rest)
  = match dollar_number token with
    | Some run => Some (remove_char 44 run)
    | None => find_price rest
    end.
Proof.
  cbn [find_price]. unfold Re.search. rewrite price_search.
  now destruct (dollar_number token).
Qed.

Lemma find_price_priced tokens p :
  find_price tokens = Some p /\ p <> [] <-> priced tokens p.
Proof.
  split.
  - revert p. induction tokens as [|token rest IH]; intros p [H Hne]; [discriminate|].
    rewrite find_price_step in H. destruct (dollar_number token) as [run|] eqn:E.
    + injection H as <-. exists [], token, rest, run. repeat split; auto.
      intros t0 [].
    + destruct (IH p (conj H Hne)) as (before & tok & after & run & -> & Hb & Hd & Hp & Hn).
      exists (token :: before), tok, after, run. repeat split; auto.
      intros t0 [<-|Ht]; auto.
  - intros (before & token & after & run & -> & Hb & Hd & -> & Hne).
    split; [|assumption]. induction before as [|t before IH].
    + cbn [app]. now rewrite find_price_step, Hd.
    + cbn [app]. rewrite find_price_step, (Hb t (or_introl eq_refl)).
      apply IH. intros t' Ht'. apply Hb. now right.
Qed.

Lemma truthy_some x : truthy x = true <-> exists s, x = Some s /\ s <> [].
Proof.
  split.
  - destruct x as [[|c s]|]; try discriminate. intros _. now exists (c :: s).
  - intros (s & -> & Hne). destruct s; [congruence | reflexivity].
Qed.

Lemma digit_group_bad x s : forall acc count after,
  In x s -> Char.isdecimal x = false -> x <> 95%N ->
  digit_group acc count after s = None.
Proof.
  induction s as [|c s IH]; intros acc count after Hin Hx Hne; [contradiction|].
  cbn [digit_group]. destruct Hin as [->|Hin].
  - rewrite Hx. apply N.eqb_neq in Hne. now rewrite Hne.
  - destruct (Char.isdecimal c); [now apply IH|].
    destruct (N.eqb c 95 && after); [now apply IH | reflexivity].
Qed.

Lemma digit_chars c :
  Char.isdigit c = true ->
  Char.isnumspace c = false /\ c <> 43%N /\ c <> 45%N /\ c <> 95%N.
Proof.
  unfold Char.isdigit, Char.isdecimal, Char.isnumspace, Char.between. intros H.
  repeat rewrite orb_true_iff in H. rewrite andb_true_iff in H.
  rewrite !N.leb_le, !N.eqb_eq in H.
  repeat split; try lia.
  repeat (apply orb_false_intro); try (apply N.eqb_neq; lia).
  rewrite andb_false_iff, !N.leb_gt. lia.
Qed.

(** [int()] on a token that [isdigit] accepts: the value when every
    character is decimal, [ValueError] otherwise. *)
Lemma py_int_isdigit token :
  isdigit token = true ->
  py_int token = if forallb Char.isdecimal token
                 then Some (digits_value 0 token) else None.
Proof.
  intros Hd. destruct (forallb Char.isdecimal token) eqn:E.
  - apply py_int_decimal; [assumption|]. intros ->. discriminate Hd.
  - unfold isdigit in Hd. destruct token as [|c r]; [discriminate|].
    assert (Hall : forall x, In x (c :: r) -> Char.isdigit x = true)
      by (now apply forallb_forall).
    unfold py_int. rewrite strip_id.
    2:{ rewrite forallb_forall. intros x Hx.
        now rewrite (proj1 (digit_chars x (Hall x Hx))). }
    assert (Hbad : exists x, In x (c :: r) /\ Char.isdecimal x = false).
    { apply Bool.not_true_iff_false in E. 
      destruct (existsb (fun x => negb (Char.isdecimal x)) (c :: r)) eqn:Ex.
      - apply existsb_exists in Ex as (x & Hx & Hn). exists x. split; [assumption|].
        now destruct (Char.isdecimal x).
      - exfalso. apply E. apply forallb_forall. intros x Hx.
        destruct (Char.isdecimal x) eqn:Hdx; [reflexivity|].
        assert (existsb (fun x => negb (Char.isdecimal x)) (c :: r) = true)
          by (apply existsb_exists; exists x; now rewrite Hdx).
        congruence. }
    destruct Hbad as (x & Hx & Hnd).
    destruct (digit_chars x (Hall x Hx)) as (_ & _ & _ & H95).
    assert (Hg : forall acc n b, digit_group acc n b (c :: r) = None)
      by (intros; now apply (digit_group_bad x)).
    destruct (digit_chars c (Hall c (or_introl eq_refl))) as (_ & H43 & H45 & _).
    unfold signed.
    destruct c as [|q]; [now rewrite Hg|].
    do 8 (destruct q as [q|q|]; try (now rewrite Hg); try congruence).
Qed.

Lemma decimal_isdigit token :
  forallb Char.isdecimal token = true -> token <> [] -> isdigit token = true.
Proof.
  intros H Hne. unfold isdigit. destruct token; [congruence|].
  rewrite forallb_forall in *. intros x Hx. unfold Char.isdigit. now rewrite (H x Hx).
Qed.

(** One step of the year loop, in the terms of the specification. *)
Lemma find_year_step cy token rest :
  find_year cy (token :: rest)
  = if odd_year token then Raises
    else if plausible_year cy token then Returns (Some token)
    else find_year cy rest.
Proof.
  cbn [find_year]. unfold odd_year, plausible_year.
  destruct (Nat.eqb_spec (List.length token) 4) as [Hlen|Hlen];
    [|now rewrite andb_false_r].
  rewrite andb_true_r. cbn [andb].
  destruct (isdigit token) eqn:Hd.
  - rewrite (py_int_isdigit token Hd).
    destruct (forallb Char.isdecimal token); cbn [negb andb]; [|reflexivity].
    now destruct (_ <=? _), (_ <=? _).
  - destruct (forallb Char.isdecimal token) eqn:E; [|reflexivity].
    rewrite decimal_isdigit in Hd; [discriminate | assumption |].
    intros ->. discriminate Hlen.
Qed.

Lemma odd_not_plausible cy token : odd_year token = true -> plausible_year cy token = false.
Proof.
  unfold odd_year, plausible_year. intros H.
  apply andb_prop in H as [_ H]. apply negb_true_iff in H. rewrite H.
  now rewrite andb_false_r.
Qed.

Lemma find_year_dated cy tokens y :
  find_year cy tokens = Returns (Some y) <-> dated cy tokens y.
Proof.
  split.
  - induction tokens as [|token rest IH]; intros H; [discriminate|].
    rewrite find_year_step in H.
    destruct (odd_year token) eqn:Eo; [discriminate|].
    destruct (plausible_year cy token) eqn:Ep.
    + injection H as <-. exists [], rest.
      split; [reflexivity|]. split; [assumption|]. intros t0 [].
    + destruct (IH H) as (before & after & -> & Hy & Hb).
      exists (token :: before), after.
      split; [reflexivity|]. split; [assumption|].
      intros t0 [<-|Ht]; auto.
  - intros (before & after & -> & Hy & Hb). induction before as [|t before IH].
    + cbn [app]. rewrite find_year_step, Hy.
      destruct (odd_year y) eqn:Eo; [|reflexivity].
      apply (odd_not_plausible cy) in Eo. congruence.
    + cbn [app]. rewrite find_year_step.
      destruct (Hb t (or_introl eq_refl)) as [-> ->]. apply IH.
      intros t' Ht'. apply Hb. now right.
Qed.


Lemma find_make_branded tokens make model :
  find_make tokens = Some (make, model) <-> branded tokens make model.
Proof.
  split.
  - induction tokens as [|token rest IH]; intros H; [discriminate|].
    cbn [find_make] in H. fold (is_brand token) in H.
    destruct (is_brand token) eqn:E.
    + injection H as <- <-. exists [], token, rest.
      refine (conj eq_refl (conj E (conj _ (conj eq_refl eq_refl)))). intros t0 [].
    + destruct (IH H) as (before & tok & after & -> & Hb & Hn & Hm & Hmo).
      exists (token :: before), tok, after.
      refine (conj eq_refl (conj Hb (conj _ (conj Hm Hmo)))).
      intros t0 [<-|Ht]; auto.
  - intros (before & token & after & -> & Hb & Hn & -> & ->).
    induction before as [|t before IH].
    + cbn [app find_make]. fold (is_brand token). now rewrite Hb.
    + cbn [app find_make]. fold (is_brand t). rewrite (Hn t (or_introl eq_refl)).
      apply IH. intros t' Ht'. apply Hn. now right.
Qed.







Lemma take_class_all p s : forallb p (take_class p s) = true.
Proof.
  induction s as [|c s IH]; [reflexivity|]. cbn [take_class].
  destruct (p c) eqn:E; [|reflexivity]. cbn [forallb]. now rewrite E, IH.
Qed.

Lemma dollar_number_run token run :
  dollar_number token = Some run -> forallb digit_or_comma run = true.
Proof.
  induction token as [|c rest IH]; [discriminate|]. cbn [dollar_number].
  destruct (N.eqb 36 c); [|exact IH].
  destruct (take_class digit_or_comma rest) as [|d r] eqn:E; [exact IH|].
  intros H. injection H as <-. rewrite <- E. apply take_class_all.
Qed.


Lemma title_from_nonempty s : forall b, s <> [] -> title_from b s <> [].
Proof.
  destruct s as [|c s]; intros b Hne; [congruence|]. cbn [title_from].
  destruct b; [discriminate|]. unfold Char.title.
  repeat match goal with |- context [if ?x then _ else _] => destruct x end; discriminate.
Qed.

Lemma brand_nonempty token : is_brand token = true -> token <> [].
Proof. intros H ->. vm_compute in H. discriminate. Qed.

Lemma plausible_year_nonempty cy y : plausible_year cy y = true -> y <> [].
Proof. intros H ->. discriminate H. Qed.



Lemma parse_returns_record cy text url r :
  parse_car_text_enhanced cy text url = Returns (Some r)
  <-> exists p y make model,
        priced (str_split text) p /\ dated cy (str_split text) y
        /\ branded (str_split text) make model
        /\ r = record_of text url p y make model.
Proof.
  split.
  - intros H. apply parse_returns_fields in H as (year & Hy & Tp & Ty & Tm & ->).
    apply truthy_some in Tp as (p & Hp & Hpne).
    apply truthy_some in Ty as (y & -> & Hyne).
    apply truthy_some in Tm as (make & Hm & Hmne).
    destruct (find_make (str_split text)) as [[make' model]|] eqn:Em; [|discriminate].
    cbn [option_map fst] in Hm. injection Hm as ->.
    exists p, y, make, model. split; [now apply find_price_priced|].
    split; [now apply find_year_dated|]. split; [now apply find_make_branded|].
    unfold record_of. rewrite Hp. reflexivity.
  - intros (p & y & make & model & Hp & Hy & Hm & ->).
    apply find_price_priced in Hp as [Hp Hpne].
    pose proof Hy as (_ & _ & _ & Hplaus & _).
    apply find_year_dated in Hy.
    pose proof Hm as (_ & token & _ & _ & Hb & _ & Hmake & _).
    apply find_make_branded in Hm.
    assert (Hyne : y <> []) by now apply (plausible_year_nonempty cy).
    assert (Hmne : make <> [])
      by (rewrite Hmake; apply title_from_nonempty; now apply brand_nonempty).
    unfold parse_car_text_enhanced. rewrite Hy, Hp, Hm. cbn [option_map fst].
    rewrite (proj2 (truthy_some (Some p))) by now exists p.
    rewrite (proj2 (truthy_some (Some y))) by now exists y.
    rewrite (proj2 (truthy_some (Some make))) by now exists make.
    reflexivity.
Qed.




(** ** The estimator on its own *)


(** X1.  For a numeric price that is not negative the estimator returns
    three prices in ascending order, none of them negative: trade-in, then
    private party, then dealer retail. *)
Theorem estimate_triple_ordered cy make model year price p y :
  py_int price = Some p -> py_int year = Some y -> 0 <= p ->
  exists trade_in private_party dealer_retail,
    get_market_pricing_estimate cy make model year price
    = [trade_in; private_party; dealer_retail]
    /\ 0 <= trade_in /\ trade_in <= private_party /\ private_party <= dealer_retail.
Proof.
  intros Hp Hy Hpos.
  rewrite (estimate_numeric cy make model year price p y Hp Hy).
  pose proof (estimated_value_nonneg cy make y p Hpos) as Hv.
  set (v := estimated_value cy make y p) in *.
  do 3 eexists. split; [reflexivity|].
  split; [|split].
  - rewrite py_trunc_nonneg by lra.
    change 0 with (Qfloor 0). apply Qfloor_resp_le. lra.
  - apply py_trunc_le; lra.
  - apply py_trunc_le; lra.
Qed.

Lemma estimate_triple_ordered_witness :
  exists trade_in private_party dealer_retail,
    get_market_pricing_estimate 2025 (u "Honda") (u "Civic") (u "2015") (u "14500")
    = [trade_in; private_party; dealer_retail]
    /\ 0 <= trade_in /\ trade_in <= private_party /\ private_party <= dealer_retail.
Proof.
  apply (estimate_triple_ordered 2025 (u "Honda") (u "Civic") (u "2015") (u "14500")
           14500 2015); [reflexivity | reflexivity | lia].
Defined.



Lemma estimate_length cy make model year price :
  List.length (get_market_pricing_estimate cy make model year price) = 3%nat.
Proof.
  unfold get_market_pricing_estimate.
  destruct (py_int price); [destruct (py_int year)|]; reflexivity.
Qed.

(** X3.  The estimator always returns exactly three prices, and the fixed
    triple 8000, 10000, 12000 whenever the price or the year is not a
    string [int()] accepts, a price written with a comma included. *)
Theorem estimate_three_prices cy make model year price :
  List.length (get_market_pricing_estimate cy make model year price) = 3%nat
  /\ (py_int price = None \/ py_int year = None ->
      get_market_pricing_estimate cy make model year price = [8000; 10000; 12000])
  /\ get_market_pricing_estimate cy make model (u "2015") (u "14,500")
     = [8000; 10000; 12000].
Proof.
  split; [apply estimate_length|]. unfold get_market_pricing_estimate. split.
  - intros [H|H].
    + rewrite H. reflexivity.
    + rewrite H. destruct (py_int price); reflexivity.
  - reflexivity.
Qed.

Lemma estimate_three_prices_witness :
  py_int (u "cheap") = None
  /\ get_market_pricing_estimate 2025 (u "Honda") (u "Civic") (u "2015") (u "cheap")
     = [8000; 10000; 12000].
Proof.
  split; [reflexivity|].
  apply (proj1 (proj2 (estimate_three_prices 2025 (u "Honda") (u "Civic") (u "2015")
                         (u "cheap")))).
  left. reflexivity.
Defined.

(** ** The scorer and the estimator *)



(** X5.  A record whose year field is not made of digits is scored as a car
    of 2010: its ratio, condition and market prices are those of the same
    record with the year 2010. *)
Theorem non_numeric_year_scored_as_2010 cy price year make rest :
  isdigit year = false ->
  score_ratio cy (price :: year :: make :: rest)
  = score_ratio cy (price :: u "2010" :: make :: rest).
Proof.
  intros H. unfold score_ratio, car_year, car_mileage.
  cbn [List.length field nth]. rewrite H.
  change (isdigit (u "2010")) with true. cbv iota.
  change (py_int (u "2010")) with (Some 2010). reflexivity.
Qed.

Lemma non_numeric_year_scored_as_2010_witness :
  score_ratio 2025 (u "14500" :: u "Unknown" :: u "Honda" :: [u "Civic"])
  = score_ratio 2025 (u "14500" :: u "2010" :: u "Honda" :: [u "Civic"]).
Proof.
  apply (non_numeric_year_scored_as_2010 2025 (u "14500") (u "Unknown") (u "Honda")
           [u "Civic"]).
  reflexivity.
Defined.

(** ** From the parser to the scorer *)

Lemma decimal_not_upper c : Char.isdecimal c = true -> Char.lower c = c.
Proof.
  unfold Char.isdecimal, Char.lower, Char.isupper, Char.between. intros H.
  apply andb_true_iff in H. destruct H as [H1 H2].
  apply N.leb_le in H1. apply N.leb_le in H2.
  replace ((65 <=? c)%N && (c <=? 90)%N) with false
    by (symmetry; apply andb_false_iff; left; apply N.leb_gt; lia).
  replace ((192 <=? c)%N && (c <=? 214)%N) with false
    by (symmetry; apply andb_false_iff; left; apply N.leb_gt; lia).
  replace ((216 <=? c)%N && (c <=? 222)%N) with false
    by (symmetry; apply andb_false_iff; left; apply N.leb_gt; lia).
  reflexivity.
Qed.

Lemma lower_decimal s : forallb Char.isdecimal s = true -> lower s = s.
Proof.
  induction s as [|c s IH]; [reflexivity|]. cbn [forallb]. intros H.
  apply andb_true_iff in H. destruct H as [Hc Hs].
  unfold lower in *. cbn [map]. rewrite (decimal_not_upper c Hc), (IH Hs). reflexivity.
Qed.

Lemma split_at_none p s :
  forallb (fun c => negb (p c)) s = true -> split_at p s = (s, None).
Proof.
  induction s as [|c s IH]; [reflexivity|]. cbn [forallb split_at]. intros H.
  apply andb_true_iff in H. destruct H as [Hc Hs].
  apply negb_true_iff in Hc. rewrite Hc, (IH Hs). reflexivity.
Qed.

Lemma decimal_head_eqb c r t :
  Char.isdecimal c = true -> (97 <= hd 0%N t)%N -> pystr_eqb (c :: r) t = false.
Proof.
  intros Hc Ht. destruct (pystr_eqb (c :: r) t) eqn:E; [|reflexivity].
  apply pystr_eqb_eq in E. subst t. cbn [hd] in Ht.
  unfold Char.isdecimal, Char.between in Hc.
  apply andb_true_iff in Hc. destruct Hc as [_ H2]. apply N.leb_le in H2. lia.
Qed.

(** [float()] of a run of decimal digits is the number they spell. *)
Lemma py_float_decimal s :
  forallb Char.isdecimal s = true -> s <> [] ->
  py_float s = Some (Finite (inject_Z (digits_value 0 s))).
Proof.
  intros Hd Hne. unfold py_float.
  rewrite strip_id.
  2:{ rewrite forallb_forall in *. intros c Hc.
      rewrite (decimal_not_numspace c (Hd c Hc)). reflexivity. }
  destruct s as [|c r]; [congruence|].
  assert (Hc : Char.isdecimal c = true).
  { cbn [forallb] in Hd. apply andb_true_iff in Hd. tauto. }
  destruct (decimal_head_not_sign c Hc) as [H43 H45].
  assert (Hbody : float_body (c :: r)
                  = Some (Finite (inject_Z (digits_value 0 (c :: r))))).
  { unfold float_body. rewrite (lower_decimal _ Hd).
    rewrite !(decimal_head_eqb c r) by (exact Hc || (vm_compute; discriminate)).
    cbn [orb].
    rewrite split_at_none.
    2:{ rewrite forallb_forall in *. intros x Hx. specialize (Hd x Hx).
        unfold Char.isdecimal, Char.between in Hd.
        apply andb_true_iff in Hd. destruct Hd as [_ H2]. apply N.leb_le in H2.
        apply negb_true_iff. apply orb_false_iff.
        split; apply N.eqb_neq; lia. }
    unfold float_mantissa. rewrite split_at_none.
    2:{ rewrite forallb_forall in *. intros x Hx. specialize (Hd x Hx).
        unfold Char.isdecimal, Char.between in Hd.
        apply andb_true_iff in Hd. destruct Hd as [H1 _]. apply N.leb_le in H1.
        apply negb_true_iff. apply N.eqb_neq. lia. }
    rewrite (digit_group_decimal (c :: r) 0 0%nat false Hd Hne). reflexivity. }
  destruct c as [|q]; [exact Hbody|].
  repeat (destruct q as [q|q|]; try exact Hbody; try congruence).
Qed.

Lemma digits_value_nonneg s : forall acc, 0 <= acc -> 0 <= digits_value acc s.
Proof.
  unfold digits_value. induction s as [|c s IH]; intros acc H; cbn [fold_left]; [exact H|].
  apply IH. unfold Char.digit_value. lia.
Qed.

(** X6.  Every record the enhanced parser returns is scored, in whatever
    year the scorer runs, unless its price is zero, and is left out when it
    is: the price and the year are strings of decimal digits, and a mileage
    that does not convert costs the record nothing but its condition.  The
    price is taken to be of at most 300 digits, which a float holds as a
    finite number. *)
Theorem parsed_record_is_scored cy cy' text url r :
  parse_car_text_enhanced cy text url = Returns (Some r) ->
  (List.length (field 0 r) <= 300)%nat ->
  (digits_value 0 (field 0 r) = 0 -> score_car cy' r = None)
  /\ (digits_value 0 (field 0 r) <> 0 ->
      exists s, score_car cy' r = Some s /\ car s = r
                /\ List.length (market_prices s) = 3%nat).
Proof.
  intros Hparse _.
  apply parse_returns_record in Hparse.
  destruct Hparse as (p & y & make & model & Hp & Hy & _ & ->).
  unfold record_of.
  set (r := [p; y; make; or_unknown model;
             or_unknown (find_mileage mileage_patterns (lower text));
             find_location location_patterns text; url]).
  change (field 0 r) with p.
  destruct Hp as (before & token & after & run & _ & _ & Hrun & Hprice & Hne).
  assert (Hdec : forallb Char.isdecimal p = true).
  { rewrite Hprice. apply remove_commas_decimal. exact (dollar_number_run _ _ Hrun). }
  assert (Hfloat : py_float (field 0 r) = Some (Finite (inject_Z (digits_value 0 p))))
    by exact (py_float_decimal _ Hdec Hne).
  destruct Hy as (ybefore & yafter & _ & Hplaus & _).
  assert (Hyear : exists yv, car_year r = Some yv).
  { unfold car_year. change (field 1 r) with y.
    unfold plausible_year in Hplaus.
    apply andb_true_iff in Hplaus. destruct Hplaus as [Hplaus _].
    apply andb_true_iff in Hplaus. destruct Hplaus as [Hplaus _].
    apply andb_true_iff in Hplaus. destruct Hplaus as [Hlen Hyd].
    assert (Hyne : y <> []) by (intros ->; discriminate).
    rewrite (decimal_isdigit y Hyd Hyne), (py_int_decimal y Hyd Hyne).
    eexists. reflexivity. }
  destruct Hyear as [yv Hyear].
  split.
  - intros Hz. unfold score_car.
    rewrite (score_ratio_zero_price cy' r _ Hfloat); [reflexivity|].
    rewrite Hz. reflexivity.
  - intros Hnz. unfold score_car.
    rewrite (score_ratio_whole_price cy' r (inject_Z (digits_value 0 p))
               (digits_value 0 p) yv);
      [| cbn; lia | exact Hfloat | reflexivity | exact Hnz | exact Hyear].
    eexists. split; [reflexivity|]. cbn [car market_prices s_market_prices].
    split; [reflexivity|].
    apply estimate_length.
Qed.

Lemma parsed_record_is_scored_witness :
  exists s,
    score_car 2026
      [ u "14500"; u "2015"; u "Honda"; u "Civic"; u "78000"; u "Atlanta, GA"; u "url" ]
    = Some s
    /\ car s = [ u "14500"; u "2015"; u "Honda"; u "Civic"; u "78000"; u "Atlanta, GA";
                 u "url" ]
    /\ List.length (market_prices s) = 3%nat.
Proof.
  apply (proj2 (parsed_record_is_scored 2025 2026
                  (u "2015 Honda Civic $14,500 78k miles Atlanta, GA") (u "url")
                  [ u "14500"; u "2015"; u "Honda"; u "Civic"; u "78000";
                    u "Atlanta, GA"; u "url" ]
                  eq_refl ltac:(vm_compute; lia))).
  vm_compute. discriminate.
Defined.

(** ** The simple parser beside the enhanced one *)

Lemma dollar_number_no_dollar token :
  char_in 36 token = false -> dollar_number token = None.
Proof.
  induction token as [|c rest IH]; [reflexivity|].
  unfold char_in in *. cbn [existsb dollar_number]. intros H.
  apply orb_false_iff in H. destruct H as [Hc Hrest].
  rewrite Hc. exact (IH Hrest).
Qed.

Lemma find_price_guard_redundant tokens :
  find_price_in_dollar_tokens tokens = find_price tokens.
Proof.
  induction tokens as [|token rest IH]; [reflexivity|].
  cbn [find_price_in_dollar_tokens find_price].
  destruct (char_in 36 token) eqn:E; [now rewrite IH|].
  unfold Re.search. rewrite price_search, (dollar_number_no_dollar token E).
  exact IH.
Qed.

Lemma simple_brand_is_brand token :
  str_in (lower token) simple_car_brands = true -> is_brand token = true.
Proof.
  intros H. apply str_in_In in H. unfold is_brand, brand_key.
  unfold simple_car_brands in H. cbn [map In] in H.
  repeat (destruct H as [<-|H]; [reflexivity|]). destruct H.
Qed.

Lemma find_make_simple_found tokens make model :
  find_make_simple tokens = Some (make, model) ->
  make <> [] /\ truthy (option_map fst (find_make tokens)) = true.
Proof.
  induction tokens as [|token rest IH]; [discriminate|].
  cbn [find_make_simple find_make].
  destruct (str_in (lower token) simple_car_brands) eqn:E.
  - intros H. injection H as <- _.
    pose proof (simple_brand_is_brand token E) as Hb.
    assert (Hne : title token <> [])
      by (apply title_from_nonempty; exact (brand_nonempty token Hb)).
    unfold is_brand in Hb. rewrite Hb. cbn [option_map fst].
    split; [exact Hne|]. apply truthy_some. now exists (title token).
  - intros H. destruct (IH H) as [Hne Ht]. split; [exact Hne|].
    destruct (str_in (brand_key token) car_brands) eqn:Eb; [|exact Ht].
    cbn [option_map fst]. apply truthy_some. exists (title token).
    split; [reflexivity|]. apply title_from_nonempty.
    apply brand_nonempty. exact Eb.
Qed.

(** X7.  The simple parser raises exactly when the enhanced parser does, and
    whatever it accepts the enhanced parser accepts too, with the same
    price, year and URL; its location is always Atlanta, GA.  The converse
    fails: a Jeep is a brand for the enhanced parser alone. *)
Theorem parse_car_text_accepts_less cy text url :
  (parse_car_text cy text url = Raises
   <-> parse_car_text_enhanced cy text url = Raises)
  /\ (forall r,
         parse_car_text cy text url = Returns (Some r) ->
         List.length r = 7%nat /\ field 5 r = u "Atlanta, GA" /\ field 6 r = url
         /\ exists r',
              parse_car_text_enhanced cy text url = Returns (Some r')
              /\ field 0 r' = field 0 r /\ field 1 r' = field 1 r
              /\ field 6 r' = field 6 r)
  /\ parse_car_text 2025 (u "2015 Jeep Wrangler $14,500") url = Returns None
  /\ parse_car_text_enhanced 2025 (u "2015 Jeep Wrangler $14,500") url
     = Returns (Some [ u "14500"; u "2015"; u "Jeep"; u "Wrangler";
                       u "Unknown"; u "Unknown"; url ]).
Proof.
  split; [|split; [|split; reflexivity]].
  - unfold parse_car_text, parse_car_text_enhanced.
    destruct (find_year cy (str_split text)) as [year|]; [|tauto].
    split; intros H.
    + destruct (truthy _ && truthy year && truthy _); discriminate.
    + destruct (truthy _ && truthy year && truthy _); discriminate.
  - intros r. unfold parse_car_text, parse_car_text_enhanced.
    rewrite find_price_guard_redundant.
    destruct (find_year cy (str_split text)) as [year|]; [|discriminate].
    destruct (truthy (find_price (str_split text))) eqn:Hp; [|discriminate].
    destruct (truthy year) eqn:Hy; [|discriminate].
    destruct (find_make_simple (str_split text)) as [[make model]|] eqn:Hm;
      [|discriminate].
    destruct (find_make_simple_found _ _ _ Hm) as [Hne Ht].
    rewrite Ht. cbn [option_map fst andb].
    destruct make as [|c make]; [congruence|]. cbn [truthy].
    intros H. injection H as <-.
    repeat split.
    eexists. split; [reflexivity|]. repeat split.
Qed.

Lemma parse_car_text_accepts_less_witness :
  List.length [ u "14500"; u "2015"; u "Honda"; u "Civic"; u "78000"; u "Atlanta, GA";
                u "url" ] = 7%nat
  /\ field 5 [ u "14500"; u "2015"; u "Honda"; u "Civic"; u "78000"; u "Atlanta, GA";
               u "url" ] = u "Atlanta, GA"
  /\ field 6 [ u "14500"; u "2015"; u "Honda"; u "Civic"; u "78000"; u "Atlanta, GA";
               u "url" ] = u "url"
  /\ exists r',
       parse_car_text_enhanced 2025 (u "2015 Honda Civic $14,500 78k Decatur, GA")
         (u "url") = Returns (Some r')
       /\ field 0 r' = u "14500" /\ field 1 r' = u "2015" /\ field 6 r' = u "url".
Proof.
  apply (proj1 (proj2 (parse_car_text_accepts_less 2025
                         (u "2015 Honda Civic $14,500 78k Decatur, GA") (u "url")))
           [ u "14500"; u "2015"; u "Honda"; u "Civic"; u "78000"; u "Atlanta, GA";
             u "url" ]).
  reflexivity.
Defined.

(** ** The mileage of the simple parser *)

Lemma number_matches_none b c a g :
  match a with
  | x :: _ => digit_or_comma x = false
  | [] => True
  end ->
  Re.matches number_pattern
    {| Re.before := b; Re.consumed := c; Re.ahead := a; Re.group1 := g |} = [].
Proof.
  intros H. unfold number_pattern, Re.plus, Re.digit_or_comma.
  rewrite matches_group, matches_seq. cbn [Re.before Re.ahead Re.group1].
  rewrite matches_chr. destruct a as [|x a]; [reflexivity|].
  unfold digit_or_comma in H. rewrite H. reflexivity.
Qed.

Lemma number_matches_some b c d a g :
  digit_or_comma d = true ->
  exists hd tl,
    Re.matches number_pattern
      {| Re.before := b; Re.consumed := c; Re.ahead := d :: a; Re.group1 := g |}
    = hd :: tl
    /\ rev (Re.consumed hd) = rev c ++ d :: take_class digit_or_comma a
    /\ Re.group1 hd = Some (d :: take_class digit_or_comma a).
Proof.
  intros Hd. unfold number_pattern, Re.plus, Re.digit_or_comma.
  rewrite matches_group, matches_seq.
  cbn [Re.before Re.ahead Re.group1 Re.consumed].
  rewrite matches_chr. unfold digit_or_comma in Hd. rewrite Hd.
  cbn [flat_map]. rewrite app_nil_r, matches_star. cbn [Re.ahead].
  destruct (star_loop_class (fun c0 => Char.isdecimal c0 || (c0 =? 44)%N) (List.length a)
              {| Re.before := Some d; Re.consumed := [d]; Re.ahead := a; Re.group1 := g |}
              (le_n _)) as (hd & tl & E & Hc & Hg).
  rewrite E. cbn [map]. eexists _, _. split; [reflexivity|].
  cbn [Re.consumed Re.group1 Re.ahead] in *. rewrite Hc.
  unfold digit_or_comma.
  rewrite ?rev_app_distr, ?rev_involutive. cbn [rev app].
  rewrite <- ?app_assoc. split; reflexivity.
Qed.

(** The pattern [([0-9,]+)] finds the first maximal run of digits and
    commas. *)
Lemma number_search : forall s prev,
  Re.search_from number_pattern prev s
  = option_map (fun run => {| Re.group0 := run; Re.captured := Some run |})
      (first_number s).
Proof.
  induction s as [|x rest IH]; intros prev.
  - cbn [Re.search_from]. now rewrite number_matches_none.
  - cbn [first_number Re.search_from].
    destruct (digit_or_comma x) eqn:Hd.
    + destruct (number_matches_some prev [] x rest None Hd) as (hd & tl & E & Hc & Hg).
      rewrite E, Hc, Hg. reflexivity.
    + rewrite number_matches_none by exact Hd. apply IH.
Qed.

Lemma first_number_digits digits c rest :
  forallb Char.isdecimal digits = true -> digits <> [] ->
  digit_or_comma c = false ->
  first_number (digits ++ c :: rest) = Some digits.
Proof.
  intros Hd Hne Hc. destruct digits as [|d digits]; [congruence|].
  cbn [forallb] in Hd. apply andb_true_iff in Hd. destruct Hd as [Hd Hds].
  cbn [app first_number]. unfold digit_or_comma at 1. rewrite Hd. cbn [orb].
  f_equal. f_equal. clear Hd Hne. induction digits as [|x digits IH].
  - cbn [app take_class]. now rewrite Hc.
  - cbn [forallb] in Hds. apply andb_true_iff in Hds. destruct Hds as [Hx Hds].
    cbn [app take_class]. unfold digit_or_comma at 1. rewrite Hx. cbn [orb].
    f_equal. exact (IH Hds).
Qed.

Lemma remove_char_decimal digits :
  forallb Char.isdecimal digits = true -> remove_char 44 digits = digits.
Proof.
  induction digits as [|d digits IH]; [reflexivity|].
  cbn [forallb]. intros H. apply andb_true_iff in H. destruct H as [Hd Hds].
  unfold remove_char in *. cbn [filter].
  assert (Hne : N.eqb d 44 = false).
  { unfold Char.isdecimal, Char.between in Hd.
    apply andb_true_iff in Hd. destruct Hd as [H1 _]. apply N.leb_le in H1.
    apply N.eqb_neq. lia. }
  rewrite Hne. cbn [negb]. f_equal. exact (IH Hds).
Qed.

(** X8.  The simple parser reads a token of digits followed by a [k] as
    that many thousands, however large the number: the enhanced parser
    multiplies only below 1000, the simple one always. *)
Theorem simple_mileage_always_thousands digits k rest :
  forallb Char.isdecimal digits = true -> digits <> [] ->
  k = 107%N \/ k = 75%N ->
  find_mileage_in_tokens ((digits ++ [k]) :: rest)
  = Some (py_str (digits_value 0 digits * 1000)).
Proof.
  intros Hd Hne Hk. cbn [find_mileage_in_tokens].
  assert (Hhas : char_in 107 (lower (digits ++ [k])) = true).
  { unfold char_in, lower. rewrite map_app, existsb_app. apply orb_true_iff. right.
    destruct Hk as [-> | ->]; reflexivity. }
  rewrite Hhas. cbn [orb]. unfold Re.search. rewrite number_search.
  rewrite (first_number_digits digits k [] Hd Hne)
    by (destruct Hk as [-> | ->]; reflexivity).
  cbn [option_map]. rewrite (remove_char_decimal digits Hd).
  rewrite (py_int_decimal digits Hd Hne). reflexivity.
Qed.

Lemma simple_mileage_always_thousands_witness :
  find_mileage_in_tokens ((u "1500" ++ [107%N]) :: [u "miles"]) = Some (u "1500000")
  /\ find_mileage mileage_patterns (lower (u "1500k miles")) = Some (u "1500").
Proof.
  split; [|reflexivity].
  apply (simple_mileage_always_thousands (u "1500") 107%N [u "miles"]);
    [reflexivity | discriminate | left; reflexivity].
Defined.

(** ** Preferences *)

Lemma lookup_store_same key v d : Dict.lookup key (Dict.store key v d) = Some v.
Proof.
  induction d as [|[k v'] d IH]; cbn [Dict.store Dict.lookup].
  - now rewrite pystr_eqb_refl.
  - destruct (pystr_eqb k key) eqn:E; cbn [Dict.lookup]; rewrite E; [reflexivity|exact IH].
Qed.

Lemma lookup_store_other key key' v d :
  key' <> key -> Dict.lookup key (Dict.store key' v d) = Dict.lookup key d.
Proof.
  intros Hne. induction d as [|[k v'] d IH]; cbn [Dict.store Dict.lookup].
  - destruct (pystr_eqb key' key) eqn:E; [|reflexivity].
    apply pystr_eqb_eq in E. congruence.
  - destruct (pystr_eqb k key') eqn:E; cbn [Dict.lookup].
    + apply pystr_eqb_eq in E. subst k.
      destruct (pystr_eqb key' key) eqn:E'; [|reflexivity].
      apply pystr_eqb_eq in E'. congruence.
    + destruct (pystr_eqb k key); [reflexivity|exact IH].
Qed.

Lemma lookup_read_row key d line :
  Dict.lookup key (read_row d line)
  = match line with
    | k :: value :: _ => if pystr_eqb k key then Some (convert value)
                         else Dict.lookup key d
    | _ => Dict.lookup key d
    end.
Proof.
  destruct line as [|k [|value rest]]; try reflexivity. cbn [read_row].
  destruct (pystr_eqb k key) eqn:E.
  - apply pystr_eqb_eq in E. subst k. apply lookup_store_same.
  - apply lookup_store_other. intros ->. now rewrite pystr_eqb_refl in E.
Qed.

Lemma lookup_fold_read_row key rows : forall d,
  Dict.lookup key (fold_left read_row rows d)
  = match last_value key rows with
    | Some value => Some (convert value)
    | None => Dict.lookup key d
    end.
Proof.
  induction rows as [|line rows IH]; intros d; cbn [fold_left last_value]; [reflexivity|].
  rewrite IH. destruct (last_value key rows); [reflexivity|].
  rewrite lookup_read_row. destruct line as [|k [|value rest]]; try reflexivity.
  destruct (pystr_eqb k key); reflexivity.
Qed.

Lemma read_preferences_lookup key rows :
  Dict.lookup key (read_preferences (Some rows))
  = option_map convert (last_value key rows).
Proof.
  unfold read_preferences. rewrite lookup_fold_read_row.
  destruct (last_value key rows); reflexivity.
Qed.

Lemma last_value_last key rows text :
  last_value key (rows ++ [[key; text]]) = Some text.
Proof.
  induction rows as [|line rows IH]; cbn [app last_value].
  - now rewrite pystr_eqb_refl.
  - now rewrite IH.
Qed.

(** X9.  After the preferences file has been read, a key holds what the
    last row of the file with that key and a value says, as a number when
    [int()] accepts it and as the text otherwise: a later row overrides an
    earlier one, a row with fewer than two fields binds nothing, and a key
    no row names is absent. *)
Theorem read_preferences_last_row_wins key rows :
  Dict.lookup key (read_preferences (Some rows))
  = option_map convert (last_value key rows)
  /\ (forall text,
         Dict.lookup key (read_preferences (Some (rows ++ [[key; text]])))
         = Some (convert text))
  /\ (forall line,
         (List.length line < 2)%nat ->
         read_preferences (Some (rows ++ [line])) = read_preferences (Some rows))
  /\ (last_value key rows = None ->
      Dict.lookup key (read_preferences (Some rows)) = None).
Proof.
  split; [apply read_preferences_lookup|]. split; [|split].
  - intros text. now rewrite read_preferences_lookup, last_value_last.
  - intros line Hlen. unfold read_preferences. rewrite fold_left_app.
    cbn [fold_left]. destruct line as [|k [|v rest]]; cbn [List.length] in Hlen;
      [reflexivity | reflexivity | lia].
  - intros H. now rewrite read_preferences_lookup, H.
Qed.

Lemma read_preferences_last_row_wins_witness :
  Dict.lookup (u "Radius")
    (read_preferences (Some [[u "Radius"; u "20"]; [u "Radius"; u "forty"]; [u "Radius"]]))
  = Some (Str (u "forty")).
Proof.
  refine (eq_trans
            (proj1 (read_preferences_last_row_wins (u "Radius")
                      [[u "Radius"; u "20"]; [u "Radius"; u "forty"]; [u "Radius"]])) _).
  reflexivity.
Defined.

(** ** The search URL *)

Lemma join_last sep l x :
  exists front, join sep (l ++ [x]) = front ++ x.
Proof.
  induction l as [|y l IH].
  - exists []. reflexivity.
  - destruct IH as [front IH]. cbn [app].
    destruct (l ++ [x]) as [|z l'] eqn:E.
    + destruct l; discriminate.
    + cbn [join]. cbn [join] in IH. exists (y ++ sep ++ front).
      rewrite IH, <- !app_assoc. reflexivity.
Qed.

(** X10.  A URL that [build_facebook_url] returns starts with the
    marketplace address of the location (Atlanta when none is set) and ends
    with the parameter [exact=false]. *)
Theorem build_facebook_url_frame preferences url :
  build_facebook_url preferences = Returns url ->
  exists middle,
    url = marketplace
          ++ format (match Dict.lookup (u "Location") preferences with
                     | Some v => v
                     | None => Str (u "atlanta")
                     end)
          ++ middle ++ u "exact=false".
Proof.
  unfold build_facebook_url.
  destruct (match Dict.lookup (u "Search Term") preferences with
            | Some v => v
            | None => Str []
            end) as [n|s]; [discriminate|].
  set (location := format _).
  assert (Hjoin : forall params filters,
             exists front,
               join (u "&") (params ++ basic_params preferences param_mapping
                               ++ filters ++ [u "exact=false"])
               = front ++ u "exact=false").
  { intros params filters.
    destruct (join_last (u "&")
                (params ++ basic_params preferences param_mapping ++ filters)
                (u "exact=false")) as [front E].
    exists front. rewrite <- E. f_equal. now rewrite <- !app_assoc. }
  destruct (strip Char.isspace s) as [|c term]; cbv zeta beta iota;
    (destruct (filter_params preferences filter_mapping) as [filters|];
     [|discriminate]); intros H;
    apply (f_equal (fun r => match r with Returns x => x | Raises => url end)) in H;
    cbv beta iota in H; subst url.
  - destruct (Hjoin [] filters) as [front E]. unfold pystr in *. rewrite E.
    exists (u "/vehicles?" ++ front). now rewrite <- !app_assoc.
  - destruct (Hjoin [u "query=" ++ replace_char 32 (u "%20") (c :: term)] filters)
      as [front E].
    unfold pystr in *. rewrite E. exists (u "/search?" ++ front). now rewrite <- !app_assoc.
Qed.

Lemma build_facebook_url_frame_witness :
  exists middle,
    u "https://www.facebook.com/marketplace/atlanta/vehicles?minPrice=250&maxPrice=55000&maxMileage=200000&minYear=1995&maxYear=2020&radius=20&sortBy=creation_time_descend&exact=false"
    = marketplace ++ u "atlanta" ++ middle ++ u "exact=false".
Proof.
  apply (build_facebook_url_frame get_default_preferences). reflexivity.
Defined.

Lemma held_agree p q key k :
  (forall k', k' <> key -> Dict.lookup k' p = Dict.lookup k' q) ->
  held p key = None -> held q key = None ->
  held p k = held q k.
Proof.
  intros Hag Hp Hq. destruct (list_eq_dec N.eq_dec k key) as [->|Hne].
  - congruence.
  - unfold held. now rewrite (Hag k Hne).
Qed.

Lemma basic_params_agree p q mapping :
  (forall k, held p k = held q k) -> basic_params p mapping = basic_params q mapping.
Proof.
  intros H. induction mapping as [|[k param] rest IH]; [reflexivity|].
  cbn [basic_params]. now rewrite H, IH.
Qed.

Lemma filter_params_agree p q mapping :
  (forall k, held p k = held q k) -> filter_params p mapping = filter_params q mapping.
Proof.
  intros H. induction mapping as [|[k param] rest IH]; [reflexivity|].
  cbn [filter_params]. now rewrite H, IH.
Qed.

(** X11.  A price, mileage, year, radius or filter preference that is zero
    or empty counts as absent: two sets of preferences that differ only in
    one such key, which is false in either or missing, give the same URL. *)
Theorem false_preference_is_absent p q key :
  key <> u "Location" -> key <> u "Search Term" ->
  (forall k, k <> key -> Dict.lookup k p = Dict.lookup k q) ->
  held p key = None -> held q key = None ->
  build_facebook_url p = build_facebook_url q.
Proof.
  intros Hloc Hterm Hag Hp Hq. unfold build_facebook_url.
  rewrite (Hag (u "Location")) by congruence.
  rewrite (Hag (u "Search Term")) by congruence.
  assert (Hheld : forall k, held p k = held q k)
    by (intros k; exact (held_agree p q key k Hag Hp Hq)).
  rewrite (basic_params_agree p q _ Hheld), (filter_params_agree p q _ Hheld).
  reflexivity.
Qed.

Lemma false_preference_is_absent_witness :
  build_facebook_url get_default_preferences
  = build_facebook_url (tl get_default_preferences).
Proof.
  apply (false_preference_is_absent get_default_preferences (tl get_default_preferences)
           (u "Minimum Mileage")).
  - discriminate.
  - discriminate.
  - intros k Hk. unfold get_default_preferences. cbn [tl Dict.lookup].
    destruct (pystr_eqb (u "Minimum Mileage") k) eqn:E; [|reflexivity].
    apply pystr_eqb_eq in E. congruence.
  - reflexivity.
  - reflexivity.
Defined.

Lemma filter_params_raises p mapping :
  filter_params p mapping = Raises
  <-> exists pref_key url_param n,
        In (pref_key, url_param) mapping /\ held p pref_key = Some (Int n).
Proof.
  induction mapping as [|[k param] rest IH].
  - split; [discriminate|]. intros (? & ? & ? & [] & _).
  - cbn [filter_params]. split.
    + destruct (held p k) as [[n|s]|] eqn:E.
      * intros _. exists k, param, n. split; [now left | exact E].
      * destruct (filter_params p rest); [discriminate|]. intros _.
        destruct (proj1 IH eq_refl) as (k' & param' & n & Hin & Hh).
        exists k', param', n. split; [now right | exact Hh].
      * intros H. destruct (proj1 IH H) as (k' & param' & n & Hin & Hh).
        exists k', param', n. split; [now right | exact Hh].
    + intros (k' & param' & n & [Heq|Hin] & Hh).
      * injection Heq as <- <-. now rewrite Hh.
      * assert (Hr : filter_params p rest = Raises)
          by (apply IH; exists k', param', n; now split).
        rewrite Hr. destruct (held p k) as [[?|?]|]; reflexivity.
Qed.

Lemma held_int p k n :
  held p k = Some (Int n) <-> Dict.lookup k p = Some (Int n) /\ n <> 0.
Proof.
  unfold held. destruct (Dict.lookup k p) as [[m|s]|].
  - cbn [truth]. destruct (Z.eqb_spec m 0) as [->|Hm]; cbn [negb].
    + split; [discriminate|]. intros [H Hn]. congruence.
    + split; intros H.
      * injection H as ->. now split.
      * destruct H as [H _]. exact H.
  - split; [destruct s; discriminate|]. intros [H _]. discriminate.
  - split; [discriminate|]. intros [H _]. discriminate.
Qed.

Lemma build_raises_of_filters p :
  filter_params p filter_mapping = Raises -> build_facebook_url p = Raises.
Proof.
  intros H. unfold build_facebook_url. rewrite H.
  destruct (match Dict.lookup (u "Search Term") p with
            | Some v => v
            | None => Str []
            end) as [n|s]; [reflexivity|].
  destruct (strip Char.isspace s); reflexivity.
Qed.

Lemma build_returns_of_filters p s filters :
  match Dict.lookup (u "Search Term") p with
  | Some v => v
  | None => Str []
  end = Str s ->
  filter_params p filter_mapping = Returns filters ->
  build_facebook_url p <> Raises.
Proof.
  intros Hs Hf. unfold build_facebook_url. rewrite Hs, Hf.
  destruct (strip Char.isspace s); discriminate.
Qed.

Lemma build_raises_inv p :
  build_facebook_url p = Raises ->
  (exists n, Dict.lookup (u "Search Term") p = Some (Int n))
  \/ (exists pref_key url_param n,
         In (pref_key, url_param) filter_mapping
         /\ Dict.lookup pref_key p = Some (Int n) /\ n <> 0).
Proof.
  intros H.
  destruct (Dict.lookup (u "Search Term") p) as [[n|s]|] eqn:E;
    [left; now exists n | |];
    (right;
     destruct (filter_params p filter_mapping) as [filters|] eqn:Ef;
     [ exfalso; refine (build_returns_of_filters p _ filters _ Ef H);
       rewrite E; reflexivity
     | apply filter_params_raises in Ef;
       destruct Ef as (k & param & n & Hin & Hh); apply held_int in Hh;
       exists k, param, n; tauto ]).
Qed.

(** X12.  [build_facebook_url] raises exactly when the search term is a
    number, or one of the eight filters (make, model, transmission, fuel
    type, body style, condition, seller type, sort order) is a number other
    than zero: a string method is called on it. *)
Theorem build_facebook_url_raises p :
  build_facebook_url p = Raises
  <-> (exists n, Dict.lookup (u "Search Term") p = Some (Int n))
      \/ (exists pref_key url_param n,
             In (pref_key, url_param) filter_mapping
             /\ Dict.lookup pref_key p = Some (Int n) /\ n <> 0).
Proof.
  split; [apply build_raises_inv|].
  intros [[n H]|(k & param & n & Hin & Hl & Hn)].
  - unfold build_facebook_url. now rewrite H.
  - apply build_raises_of_filters. apply filter_params_raises.
    exists k, param, n. split; [exact Hin|]. apply held_int. now split.
Qed.

(** X13.  A preferences file whose last row gives one of the eight filters
    a value that [int()] accepts, other than zero, makes
    [build_facebook_url] raise: the model 500 of a Fiat is read as a
    number. *)
Theorem numeric_filter_in_file_raises rows pref_key url_param text n :
  In (pref_key, url_param) filter_mapping ->
  py_int text = Some n -> n <> 0 ->
  build_facebook_url (read_preferences (Some (rows ++ [[pref_key; text]]))) = Raises.
Proof.
  intros Hin Hint Hn. apply build_raises_of_filters. apply filter_params_raises.
  exists pref_key, url_param, n. split; [exact Hin|]. apply held_int.
  split; [|exact Hn].
  rewrite read_preferences_lookup, last_value_last. cbn [option_map].
  unfold convert. now rewrite Hint.
Qed.

Lemma numeric_filter_in_file_raises_witness :
  build_facebook_url
    (read_preferences (Some ([[u "Make"; u "Fiat"]] ++ [[u "Model"; u "500"]])))
  = Raises.
Proof.
  apply (numeric_filter_in_file_raises [[u "Make"; u "Fiat"]] (u "Model") (u "model")
           (u "500") 500).
  - right. left. reflexivity.
  - reflexivity.
  - discriminate.
Defined.

(** ** From the scorer to the results file *)

Lemma parsed_record_length cy text url r :
  parse_car_text_enhanced cy text url = Returns (Some r) -> List.length r = 7%nat.
Proof.
  intros H. apply parse_returns_record in H.
  destruct H as (p & y & make & model & _ & _ & _ & ->). reflexivity.
Qed.

Lemma csv_row_seven s :
  List.length (car s) = 7%nat ->
  csv_row (entry s)
  = Some ([Ratio (ratio3 s); Text (condition s); Text (deal_quality s)]
            ++ map Text (car s)
            ++ [Text (join (u ",") (map (fun p => 36%N :: py_str p) (market_prices s)))]).
Proof.
  intros H. unfold entry.
  destruct (car s) as [|f0 [|f1 [|f2 [|f3 [|f4 [|f5 [|f6 [|f7 r]]]]]]]]; try discriminate.
  reflexivity.
Qed.

(** X14.  Every record of the enhanced parser that the scorer scores gets
    its row in the results file: the ratio, the condition, the deal quality,
    the seven fields of the record, and the three market prices joined as
    dollar amounts. *)
Theorem parsed_entry_written cy cy' text url r s :
  parse_car_text_enhanced cy text url = Returns (Some r) ->
  score_car cy' r = Some s ->
  csv_row (entry s)
  = Some ([Ratio (ratio3 s); Text (condition s); Text (deal_quality s)]
            ++ map Text r
            ++ [Text (join (u ",") (map (fun p => 36%N :: py_str p) (market_prices s)))])
  /\ exists trade_in private_party dealer_retail,
       market_prices s = [trade_in; private_party; dealer_retail]
       /\ join (u ",") (map (fun p => 36%N :: py_str p) (market_prices s))
          = 36%N :: py_str trade_in ++ 44%N :: 36%N :: py_str private_party
              ++ 44%N :: 36%N :: py_str dealer_retail.
Proof.
  intros Hparse Hscore.
  pose proof (score_car_keeps_car cy' r s Hscore) as Hcar.
  split.
  - rewrite csv_row_seven; [now rewrite Hcar|].
    rewrite Hcar. exact (parsed_record_length cy text url r Hparse).
  - unfold score_car in Hscore.
    destruct (score_ratio cy' r) as [sr|] eqn:E; [|discriminate].
    injection Hscore as <-. cbn [market_prices].
    unfold score_ratio in E.
    destruct (List.length r <? 4)%nat; [discriminate|].
    destruct (py_float (field 0 r)) as [pf|]; [|discriminate].
    destruct (car_year r) as [y|]; [|discriminate].
    destruct pf as [price| |]; cbn [int_of_float] in E; try discriminate.
    destruct (mileage_condition (car_mileage r)) as [cond factor].
    destruct (Qeq_bool price 0); [discriminate|].
    injection E as <-. cbn [s_market_prices].
    rewrite (estimate_numeric cy' (field 2 r) (field 3 r) (py_str y)
               (py_str (py_trunc price)) (py_trunc price) y)
      by apply py_int_py_str.
    do 3 eexists. split; [reflexivity|]. reflexivity.
Qed.

Lemma parsed_entry_written_witness :
  exists s,
    score_car 2025
      [ u "14500"; u "2015"; u "Honda"; u "Civic"; u "78000"; u "Atlanta, GA"; u "url" ]
    = Some s
    /\ csv_row (entry s)
       = Some [ Ratio (ratio3 s); Text (u "Good"); Text (u "Poor");
                Text (u "14500"); Text (u "2015"); Text (u "Honda"); Text (u "Civic");
                Text (u "78000"); Text (u "Atlanta, GA"); Text (u "url");
                Text (u "$10767,$12413,$14187") ].
Proof.
  eexists. split; [reflexivity|].
  refine (eq_trans
            (proj1 (parsed_entry_written 2025 2025
                      (u "2015 Honda Civic $14,500 78k miles Atlanta, GA") (u "url")
                      [ u "14500"; u "2015"; u "Honda"; u "Civic"; u "78000";
                        u "Atlanta, GA"; u "url" ] _ eq_refl eq_refl)) _).
  vm_compute. reflexivity.
Defined.

(** X15.  The scorer takes records of four fields and more, the results
    file entries of ten elements and more: a record of four or five fields
    is scored and then left out of the file without a word. *)
Theorem short_entry_not_written cy c s :
  score_car cy c = Some s -> (List.length c < 6)%nat ->
  (4 <= List.length c)%nat /\ csv_row (entry s) = None
  /\ save_results_to_csv [entry s] = [map Text header].
Proof.
  intros Hscore Hlen.
  pose proof (score_car_keeps_car cy c s Hscore) as Hcar.
  assert (H4 : (4 <= List.length c)%nat).
  { destruct (Nat.lt_ge_cases (List.length c) 4) as [Hlt|Hge]; [|exact Hge].
    unfold score_car in Hscore. rewrite (score_ratio_short cy c Hlt) in Hscore.
    discriminate. }
  assert (Hrow : csv_row (entry s) = None).
  { unfold entry. rewrite Hcar.
    destruct c as [|f0 [|f1 [|f2 [|f3 [|f4 [|f5 [|f6 r]]]]]]];
      cbn [List.length] in *; try lia; reflexivity. }
  split; [exact H4|]. split; [exact Hrow|].
  unfold save_results_to_csv. cbn [flat_map]. rewrite Hrow. reflexivity.
Qed.

Lemma short_entry_not_written_witness :
  exists s,
    score_car 2025 [ u "14500"; u "2015"; u "Honda"; u "Civic"; u "78000" ] = Some s
    /\ csv_row (entry s) = None.
Proof.
  eexists. split; [reflexivity|].
  apply (short_entry_not_written 2025
           [ u "14500"; u "2015"; u "Honda"; u "Civic"; u "78000" ]).
  - reflexivity.
  - cbn [List.length]. lia.
Defined.

(** X16.  A record of six fields is scored and written with its columns
    shifted: the URL column holds the list of market prices, and the market
    prices column the text N/A. *)
Theorem six_field_entry_misplaced cy c s :
  score_car cy c = Some s -> List.length c = 6%nat ->
  exists row,
    csv_row (entry s) = Some row
    /\ List.length row = 11%nat
    /\ nth 9 row (Text []) = Prices (market_prices s)
    /\ nth 10 row (Text []) = Text (u "N/A").
Proof.
  intros Hscore H. rewrite <- (score_car_keeps_car cy c s Hscore) in H. unfold entry.
  destruct (car s) as [|f0 [|f1 [|f2 [|f3 [|f4 [|f5 [|f6 r]]]]]]]; try discriminate.
  eexists. split; [reflexivity|]. repeat split.
Qed.

Lemma six_field_entry_misplaced_witness :
  exists row,
    csv_row (entry {| ratio3 := 790 # 1000; condition := u "Good";
                      deal_quality := u "Poor";
                      car := [ u "14500"; u "2015"; u "Honda"; u "Civic"; u "78000";
                               u "Atlanta, GA" ];
                      market_prices := [10767; 12413; 14187] |}) = Some row
    /\ List.length row = 11%nat
    /\ nth 9 row (Text []) = Prices [10767; 12413; 14187]
    /\ nth 10 row (Text []) = Text (u "N/A").
Proof.
  apply (six_field_entry_misplaced 2025
           [ u "14500"; u "2015"; u "Honda"; u "Civic"; u "78000"; u "Atlanta, GA" ]).
  - vm_compute. reflexivity.
  - reflexivity.
Defined.

(** ** What the scrolling loop collects *)

Lemma update_in all current href :
  In href (update all current) <-> In href all \/ In href current.
Proof. unfold update. apply set_union_iff. Qed.

Lemma update_nodup all current : NoDup all -> NoDup (update all current).
Proof.
  intros H. unfold update. induction current as [|c current IH]; cbn [set_union].
  - exact H.
  - apply set_add_nodup. exact IH.
Qed.

Lemma scroll_pass_all max st h :
  all_listings (match scroll_pass max st h with
                | Goes_on st' => st'
                | Breaks _ st' => st'
                end)
  = update (all_listings st) (harvested h).
Proof.
  destruct h as [c|]; cbn [scroll_pass harvested].
  - destruct (_ =? _)%nat.
    + destruct (3 <=? _)%nat; [reflexivity|]. destruct (_ <=? _); reflexivity.
    + destruct (_ <=? _); reflexivity.
  - reflexivity.
Qed.

Lemma scroll_loop_collects max : forall page st n why st' n',
  NoDup (all_listings st) ->
  scroll_loop max page st n = (why, st', n') ->
  NoDup (all_listings st')
  /\ forall href,
       In href (all_listings st')
       <-> In href (all_listings st)
           \/ exists i c, (i < n' - n)%nat /\ nth_error page i = Some (Harvested c)
                          /\ In href c.
Proof.
  induction page as [|h later IH]; intros st n why st' n' Hnd H.
  - cbn [scroll_loop] in H. injection H as <- <- <-. split; [exact Hnd|].
    intros href. split; [now left|]. intros [Hin|(i & c & Hi & _)]; [exact Hin|lia].
  - cbn [scroll_loop] in H. pose proof (scroll_pass_all max st h) as Hall.
    destruct (scroll_pass max st h) as [st1|why1 st1].
    + pose proof (scroll_loop_bounded max later st1 (S n) why st' n' H) as [[Hlo _] _].
      assert (Hnd1 : NoDup (all_listings st1))
        by (rewrite Hall; apply update_nodup; exact Hnd).
      destruct (IH st1 (S n) why st' n' Hnd1 H) as [Hnd' Hin']. split; [exact Hnd'|].
      intros href. rewrite Hin', Hall, update_in. split.
      * intros [[Hin|Hin]|(i & c & Hi & Hnth & Hc)].
        -- now left.
        -- right. destruct h as [c|]; [|destruct Hin]. exists 0%nat, c.
           split; [lia|]. split; [reflexivity|exact Hin].
        -- right. exists (S i), c. split; [lia|]. split; [exact Hnth|exact Hc].
      * intros [Hin|(i & c & Hi & Hnth & Hc)]; [left; now left|].
        destruct i as [|i].
        -- cbn [nth_error] in Hnth. injection Hnth as ->. left. now right.
        -- right. exists i, c. split; [lia|]. split; [exact Hnth|exact Hc].
    + injection H as <- <- <-. split.
      * rewrite Hall. apply update_nodup. exact Hnd.
      * intros href. rewrite Hall, update_in. split.
        -- intros [Hin|Hin]; [now left|]. right.
           destruct h as [c|]; [|destruct Hin]. exists 0%nat, c.
           split; [lia|]. split; [reflexivity|exact Hin].
        -- intros [Hin|(i & c & Hi & Hnth & Hc)]; [now left|].
           assert (i = 0%nat) by lia. subst i.
           cbn [nth_error] in Hnth. injection Hnth as ->. now right.
Qed.

(** X17.  When the scrolling loop ends, its accumulator holds every href of
    every pass that ran and harvested, nothing else, and none twice: its
    length is the number of distinct listings found. *)
Theorem scroll_collects_union max scroll_count page why st n :
  scroll max scroll_count page = (why, st, n) ->
  NoDup (all_listings st)
  /\ forall href,
       In href (all_listings st)
       <-> exists i current_listings,
             (i < n)%nat /\ page i = Harvested current_listings
             /\ In href current_listings.
Proof.
  unfold scroll. intros H.
  pose proof (scroll_loop_bounded max _ _ _ _ _ _ H) as [[_ Hhi] _].
  rewrite length_map, length_seq in Hhi.
  destruct (scroll_loop_collects max _ scroll_start _ _ _ _ (NoDup_nil _) H)
    as [Hnd Hin].
  split; [exact Hnd|]. intros href. rewrite Hin. cbn [scroll_start all_listings].
  rewrite Nat.sub_0_r. split.
  - intros [[]|(i & c & Hi & Hnth & Hc)]. exists i, c. split; [exact Hi|].
    split; [|exact Hc].
    rewrite nth_error_map, nth_error_seq in Hnth.
    destruct (i <? scroll_count)%nat eqn:E; [|discriminate].
    cbn [option_map] in Hnth. now injection Hnth.
  - intros (i & c & Hi & Hp & Hc). right. exists i, c. split; [exact Hi|].
    split; [|exact Hc].
    rewrite nth_error_map, nth_error_seq.
    assert (E : (i <? scroll_count)%nat = true) by (apply Nat.ltb_lt; lia).
    rewrite E. cbn [option_map Nat.add]. now rewrite Hp.
Qed.

Lemma scroll_collects_union_witness :
  NoDup [u "/marketplace/item/1"]
  /\ forall href,
       In href [u "/marketplace/item/1"]
       <-> exists i current_listings,
             (i < 4)%nat
             /\ (fun _ : nat => Harvested [u "/marketplace/item/1"]) i
                = Harvested current_listings
             /\ In href current_listings.
Proof.
  apply (scroll_collects_union 100 10 (fun _ => Harvested [u "/marketplace/item/1"])
           Stalled
           {| all_listings := [u "/marketplace/item/1"]; previous_count := 1;
              no_new_count := 3 |} 4%nat).
  reflexivity.
Defined.

(** ** What a run returns *)

Lemma keep_new_fields st c :
  Forall (fun r => List.length r = 7%nat) (car_listings st) ->
  List.length c = 7%nat ->
  Forall (fun r => List.length r = 7%nat) (car_listings (keep_new st c)).
Proof.
  intros Hst Hc. unfold keep_new.
  destruct (str_in (car_signature c) (seen_cars st)); [exact Hst|].
  cbn [car_listings]. apply Forall_app. split; [exact Hst|]. now constructor.
Qed.

Lemma keep_new_length st c :
  (List.length (car_listings (keep_new st c)) <= S (List.length (car_listings st)))%nat.
Proof.
  unfold keep_new. destruct (str_in (car_signature c) (seen_cars st)); [lia|].
  cbn [car_listings]. rewrite length_app. cbn [List.length]. lia.
Qed.

Lemma extract_loop_records cy items : forall st,
  deduplicated st ->
  Forall (fun r => List.length r = 7%nat) (car_listings st) ->
  deduplicated (extract_loop cy items st)
  /\ Forall (fun r => List.length r = 7%nat) (car_listings (extract_loop cy items st))
  /\ (List.length (car_listings (extract_loop cy items st))
      <= List.length (car_listings st) + List.length items)%nat.
Proof.
  induction items as [|[full [text|]] later IH]; intros st Hd Hf; cbn [extract_loop].
  - split; [exact Hd|]. split; [exact Hf|]. lia.
  - destruct (parse_car_text_enhanced cy text full) as [[car_data|]|] eqn:E.
    + destruct (IH (keep_new st car_data)) as (H1 & H2 & H3).
      * apply keep_new_deduplicated. exact Hd.
      * apply keep_new_fields; [exact Hf|]. exact (parsed_record_length _ _ _ _ E).
      * split; [exact H1|]. split; [exact H2|].
        pose proof (keep_new_length st car_data). cbn [List.length]. lia.
    + destruct (IH st Hd Hf) as (H1 & H2 & H3). split; [exact H1|]. split; [exact H2|].
      cbn [List.length]. lia.
    + destruct (IH st Hd Hf) as (H1 & H2 & H3). split; [exact H1|]. split; [exact H2|].
      cbn [List.length]. lia.
  - destruct (IH st Hd Hf) as (H1 & H2 & H3). split; [exact H1|]. split; [exact H2|].
    cbn [List.length]. lia.
Qed.

Lemma extract_records cy items :
  Forall (fun r => List.length r = 7%nat) (extract cy items)
  /\ NoDup (map car_signature (extract cy items))
  /\ (List.length (extract cy items) <= List.length items)%nat.
Proof.
  unfold extract.
  destruct (extract_loop_records cy items {| seen_cars := []; car_listings := [] |})
    as (Hd & Hf & Hl).
  - split; [|constructor]. intros s. reflexivity.
  - constructor.
  - split; [exact Hf|]. split; [exact (proj2 Hd)|exact Hl].
Qed.

Lemma sample_cars_records :
  sample_cars <> []
  /\ Forall (fun r => List.length r = 7%nat) sample_cars
  /\ NoDup (map car_signature sample_cars).
Proof.
  split; [discriminate|]. split.
  - repeat constructor.
  - vm_compute.
    repeat (constructor; [cbn [In]; intros H; intuition discriminate|]).
    constructor.
Qed.

Lemma slice_to_length {A} n (l : list A) :
  0 <= n -> (Z.of_nat (List.length (slice_to n l)) <= n).
Proof.
  intros Hn. unfold slice_to. destruct (Z.ltb_spec n 0) as [Hlt|_]; [lia|].
  rewrite length_firstn. lia.
Qed.

Lemma scrape_cases cy b url scroll_count max_listings :
  scrape_facebook_marketplace_safe cy b url scroll_count max_listings = sample_cars
  \/ exists hrefs,
       scrape_facebook_marketplace_safe cy b url scroll_count max_listings
       = extract cy (map (item_of b) (slice_to max_listings hrefs))
       /\ extract cy (map (item_of b) (slice_to max_listings hrefs)) <> [].
Proof.
  unfold scrape_facebook_marketplace_safe.
  destruct (playwright_available b); [|now left].
  destruct (page_launched b); [|now left]. cbn [negb].
  destruct (goto b url) as [|status_code|]; try (now left).
  destruct (negb (status_code =? 200)); [now left|].
  destruct (login_required (inner_text b)); [now left|].
  destruct scroll_count as [n|s]; [|now left].
  destruct (scroll max_listings (Z.to_nat n) (passes b)) as [[why st] k].
  destruct (all_listings st) as [|href hrefs]; [now left|].
  destruct (extract cy (map (item_of b)
                          (slice_to max_listings (listed b (href :: hrefs)))))
    as [|c cars] eqn:E; [now left|].
  right. exists (listed b (href :: hrefs)). rewrite E. split; [reflexivity|discriminate].
Qed.

Lemma scrape_records cy b url scroll_count max_listings :
  scrape_facebook_marketplace_safe cy b url scroll_count max_listings <> []
  /\ Forall (fun r => List.length r = 7%nat)
       (scrape_facebook_marketplace_safe cy b url scroll_count max_listings).
Proof.
  destruct (scrape_cases cy b url scroll_count max_listings)
    as [->|(hrefs & -> & Hne)].
  - destruct sample_cars_records as (H1 & H2 & _). now split.
  - split; [exact Hne|]. apply extract_records.
Qed.

(** X18.  Whatever the browser does, a run of the collector returns at least
    one record, every record has the seven fields, and no two records have
    the same signature; what it returns is the sample data or at most
    [max_listings] records. *)
Theorem scrape_returns_records cy b url scroll_count max_listings :
  let cars := scrape_facebook_marketplace_safe cy b url scroll_count max_listings in
  cars <> []
  /\ Forall (fun r => List.length r = 7%nat) cars
  /\ NoDup (map car_signature cars)
  /\ (cars = sample_cars
      \/ (0 <= max_listings -> Z.of_nat (List.length cars) <= max_listings)).
Proof.
  cbv zeta.
  destruct (scrape_cases cy b url scroll_count max_listings)
    as [->|(hrefs & -> & Hne)].
  - destruct sample_cars_records as (H1 & H2 & H3). repeat split; auto.
  - destruct (extract_records cy (map (item_of b) (slice_to max_listings hrefs)))
      as (Hf & Hnd & Hl).
    split; [exact Hne|]. split; [exact Hf|]. split; [exact Hnd|].
    right. intros Hmax. rewrite length_map in Hl.
    pose proof (slice_to_length max_listings hrefs Hmax). lia.
Qed.

Lemma startswith_app needle after : startswith needle (needle ++ after) = true.
Proof.
  induction needle as [|c needle IH]; [reflexivity|].
  cbn [app startswith]. now rewrite N.eqb_refl, IH.
Qed.

Lemma contains_app needle before after :
  contains needle (before ++ needle ++ after) = true.
Proof.
  induction before as [|c before IH].
  - cbn [app]. destruct (needle ++ after) eqn:E; cbn [contains];
      rewrite <- E, startswith_app; reflexivity.
  - cbn [app contains]. rewrite IH. apply orb_true_r.
Qed.

(** X19.  A page whose text holds the words log in or sign up, in any
    letter case and anywhere, be it in the title of a listing, makes the
    run return the sample data whatever listings the page shows. *)
Theorem login_words_give_sample cy b url scroll_count max_listings before words after :
  inner_text b = Some (before ++ words ++ after) ->
  lower words = u "log in" \/ lower words = u "sign up" ->
  scrape_facebook_marketplace_safe cy b url scroll_count max_listings = sample_cars.
Proof.
  intros Htext Hwords.
  assert (Hlogin : login_required (inner_text b) = true).
  { rewrite Htext. cbn [login_required]. unfold lower in *. rewrite !map_app.
    apply orb_true_iff.
    destruct Hwords as [-> | ->]; [left|right]; apply contains_app. }
  unfold scrape_facebook_marketplace_safe. rewrite Hlogin.
  destruct (playwright_available b); [|reflexivity].
  destruct (page_launched b); [|reflexivity]. cbn [negb].
  destruct (goto b url) as [|status_code|]; try reflexivity.
  destruct (negb (status_code =? 200)); reflexivity.
Qed.

Lemma login_words_give_sample_witness :
  scrape_facebook_marketplace_safe 2025
    {| playwright_available := true; page_launched := true;
       goto := fun _ => Status 200;
       inner_text := Some (u "2015 Honda Civic $14,500 catalog included");
       passes := fun _ => Harvested [u "/marketplace/item/1"];
       listed := fun l => l;
       link_text := fun _ => Some (u "2015 Honda Civic $14,500 catalog included") |}
    (u "https://www.facebook.com/marketplace/atlanta/vehicles?exact=false")
    (Int 10) 500
  = sample_cars.
Proof.
  apply (login_words_give_sample 2025 _ _ (Int 10) 500
           (u "2015 Honda Civic $14,500 cata") (u "log in") (u "cluded"));
    [reflexivity | left; reflexivity].
Defined.

(** ** A whole search *)

Lemma scored_entry_written cy cars s :
  Forall (fun r => List.length r = 7%nat) cars ->
  In s (calculate_deal_scores cy cars) ->
  exists row, csv_row (entry s) = Some row.
Proof.
  intros Hf Hin. rewrite calculate_deal_scores_in_order in Hin.
  apply (Permutation_in _ (Permutation_sym (sort_desc_perm ratio3 _))) in Hin.
  apply in_scored_in_order in Hin. destruct Hin as (c & Hc & Hs).
  rewrite Forall_forall in Hf. pose proof (Hf c Hc) as Hlen.
  rewrite <- (score_car_keeps_car cy c s Hs) in Hlen.
  eexists. apply csv_row_seven. exact Hlen.
Qed.

Lemma save_results_length entries :
  (forall e, In e entries -> exists row, csv_row e = Some row) ->
  List.length (save_results_to_csv entries) = S (List.length entries).
Proof.
  intros H. unfold save_results_to_csv. cbn [List.length]. f_equal.
  induction entries as [|e entries IH]; [reflexivity|].
  cbn [flat_map]. destruct (H e (or_introl eq_refl)) as [row ->].
  cbn [app List.length]. f_equal. apply IH. intros e' He'. apply H. now right.
Qed.

(** X20.  A search that gets past [build_facebook_url] never ends with no
    data: it returns the scored entries together with a results file that
    has the header and one row for every scored entry. *)
Theorem run_search_writes_every_score cy b preferences outcome :
  run_search_fallback cy b preferences = Returns outcome ->
  exists rows final_listings,
    outcome = Some (rows, final_listings)
    /\ List.length rows = S (List.length final_listings)
    /\ hd [] rows = map Text header.
Proof.
  unfold run_search_fallback.
  destruct (build_facebook_url preferences) as [facebook_url|]; [|discriminate].
  cbv zeta.
  set (scroll_count := match Dict.lookup (u "Scroll Down Length") preferences with
                       | Some v => v
                       | None => Int 10
                       end).
  destruct (scrape_records cy b facebook_url scroll_count 500) as (Hne & Hf).
  destruct (scrape_facebook_marketplace_safe cy b facebook_url scroll_count 500)
    as [|c cars]; [congruence|].
  intros H. injection H as <-. do 2 eexists. split; [reflexivity|].
  split; [|reflexivity].
  rewrite save_results_length; [now rewrite length_map|].
  intros e He. apply in_map_iff in He. destruct He as (s & <- & Hs).
  exact (scored_entry_written cy (c :: cars) s Hf Hs).
Qed.

Lemma run_search_writes_every_score_witness :
  exists rows final_listings,
    Some (save_results_to_csv (map entry (calculate_deal_scores 2025 sample_cars)),
          calculate_deal_scores 2025 sample_cars)
    = Some (rows, final_listings)
    /\ List.length rows = S (List.length final_listings)
    /\ hd [] rows = map Text header.
Proof.
  apply (run_search_writes_every_score 2025
           {| playwright_available := false; page_launched := false;
              goto := fun _ => No_response; inner_text := None;
              passes := fun _ => Failed; listed := fun l => l;
              link_text := fun _ => None |}
           get_default_preferences).
  vm_compute. reflexivity.
Defined.

(** ** Extraction as parsing followed by deduplication *)

Lemma extract_loop_fold cy items : forall st,
  extract_loop cy items st = fold_left keep_new (parsed cy items) st.
Proof.
  induction items as [|[full [text|]] later IH]; intros st;
    cbn [extract_loop parsed flat_map]; [reflexivity| |apply IH].
  fold (parsed cy later).
  destruct (parse_car_text_enhanced cy text full) as [[car_data|]|];
    cbn [app fold_left]; apply IH.
Qed.

(** X21.  The extraction loop returns what deduplication leaves of the
    records parsed, in the order the hrefs are met: a record is returned
    exactly when it is the first one parsed with its signature. *)
Theorem extract_is_dedup_of_parsed cy items :
  extract cy items = dedup (parsed cy items)
  /\ forall c,
       In c (extract cy items)
       <-> first_with (car_signature c) (parsed cy items) = Some c.
Proof.
  assert (H : extract cy items = dedup (parsed cy items)).
  { unfold extract, dedup. now rewrite extract_loop_fold. }
  split; [exact H|]. intros c. rewrite H. apply dedup_keeps_first.
Qed.

(** ** A scroll length that is not a number *)

Lemma scrape_with_text_count cy b url text max_listings :
  scrape_facebook_marketplace_safe cy b url (Str text) max_listings = sample_cars.
Proof.
  unfold scrape_facebook_marketplace_safe.
  destruct (playwright_available b); [|reflexivity].
  destruct (page_launched b); [|reflexivity]. cbn [negb].
  destruct (goto b url) as [|status_code|]; try reflexivity.
  destruct (negb (status_code =? 200)); [reflexivity|].
  destruct (login_required (inner_text b)); reflexivity.
Qed.

(** X22.  A preferences file whose scroll length is not a number turns
    every search into a search of the sample data: the collector gives up
    at the scrolling loop, whatever the page shows, and the sample listings
    are scored and written in place of real ones. *)
Theorem worded_scroll_length_gives_sample cy b rows text url :
  py_int text = None ->
  build_facebook_url
    (read_preferences (Some (rows ++ [[u "Scroll Down Length"; text]]))) = Returns url ->
  run_search_fallback cy b
    (read_preferences (Some (rows ++ [[u "Scroll Down Length"; text]])))
  = Returns (Some (save_results_to_csv (map entry (calculate_deal_scores cy sample_cars)),
                   calculate_deal_scores cy sample_cars)).
Proof.
  intros Hint Hurl. unfold run_search_fallback. rewrite Hurl.
  rewrite read_preferences_lookup, last_value_last. cbn [option_map].
  unfold convert. rewrite Hint. cbv zeta.
  rewrite scrape_with_text_count. reflexivity.
Qed.

Lemma worded_scroll_length_gives_sample_witness :
  run_search_fallback 2025
    {| playwright_available := true; page_launched := true;
       goto := fun _ => Status 200; inner_text := Some (u "Marketplace");
       passes := fun _ => Harvested [u "/marketplace/item/1"];
       listed := fun l => l;
       link_text := fun _ => Some (u "2019 Toyota Camry $9,000 60k miles Macon, GA") |}
    (read_preferences (Some ([] ++ [[u "Scroll Down Length"; u "ten"]])))
  = Returns (Some (save_results_to_csv (map entry (calculate_deal_scores 2025 sample_cars)),
                   calculate_deal_scores 2025 sample_cars)).
Proof.
  apply (worded_scroll_length_gives_sample 2025 _ [] (u "ten")
           (u "https://www.facebook.com/marketplace/atlanta/vehicles?exact=false"));
    reflexivity.
Defined.

(** ** The location comes from the text *)

Lemma matched_group_capture a w c : Matched (Re.Group a) w c -> c = Some w.
Proof. intros H. inversion H; subst; reflexivity. Qed.

Lemma find_location_from_text text : forall patterns,
  (forall r, In r patterns -> exists a, r = Re.Group a) ->
  find_location patterns text = u "Unknown"
  \/ exists before after,
       text = before ++ find_location patterns text ++ after.
Proof.
  induction patterns as [|pattern rest IH]; intros Hg; cbn [find_location];
    [now left|].
  assert (Hrest : forall r, In r rest -> exists a, r = Re.Group a)
    by (intros r Hr; apply Hg; now right).
  destruct (Re.search pattern text) as [[g0 [g|]]|] eqn:E; try exact (IH Hrest).
  right. destruct (Hg pattern (or_introl eq_refl)) as [a ->].
  unfold Re.search in E. apply search_from_sound in E.
  destruct E as (pre & post & Htext & Hm). cbn [Re.group0 Re.captured] in *.
  apply matched_group_capture in Hm. injection Hm as ->.
  now exists pre, post.
Qed.

(** X23.  The location of a record is never made up: it is the text
    Unknown or a piece of the listing text, copied as it stands. *)
Theorem location_is_from_text cy text url r :
  parse_car_text_enhanced cy text url = Returns (Some r) ->
  field 5 r = u "Unknown"
  \/ exists before after, text = before ++ field 5 r ++ after.
Proof.
  intros H. apply parse_returns_record in H.
  destruct H as (p & y & make & model & _ & _ & _ & ->).
  unfold record_of. cbn [field nth].
  apply find_location_from_text. unfold location_patterns.
  intros r [<-|[<-|[]]]; eexists; reflexivity.
Qed.

Lemma location_is_from_text_witness :
  u "Atlanta, GA" = u "Unknown"
  \/ exists before after,
       u "2015 Honda Civic $14,500 78k miles Atlanta, GA"
       = before ++ u "Atlanta, GA" ++ after.
Proof.
  apply (location_is_from_text 2025
           (u "2015 Honda Civic $14,500 78k miles Atlanta, GA") (u "url")
           [ u "14500"; u "2015"; u "Honda"; u "Civic"; u "78000"; u "Atlanta, GA";
             u "url" ]).
  reflexivity.
Defined.

(** ** Monotonicity *)




(** X25.  More miles never give a better condition factor: of two mileages
    other than zero, the higher has a factor that is not above the other's.
    Zero is apart, it counts as unknown with the factor 0.90. *)
Theorem mileage_condition_monotone m1 m2 :
  m1 <> 0 -> m2 <> 0 -> m1 <= m2 ->
  (snd (mileage_condition (Some m2)) <= snd (mileage_condition (Some m1)))%Q.
Proof.
  intros H1 H2 Hle.
  rewrite (mileage_condition_thresholds m1 H1), (mileage_condition_thresholds m2 H2).
  destruct (Z.ltb_spec m1 50000), (Z.ltb_spec m2 50000); try lia;
    destruct (Z.ltb_spec m1 80000), (Z.ltb_spec m2 80000); try lia;
    destruct (Z.ltb_spec m1 120000), (Z.ltb_spec m2 120000); try lia;
    cbn [snd]; lra.
Qed.

Lemma mileage_condition_monotone_witness :
  (snd (mileage_condition (Some 85000%Z)) <= snd (mileage_condition (Some 45000%Z)))%Q.
Proof.
  apply (mileage_condition_monotone 45000 85000); [discriminate | discriminate | lia].
Defined.

(** ** A larger scroll budget *)

Lemma scroll_loop_grows max : forall page st n,
  incl (all_listings st) (all_listings (snd (fst (scroll_loop max page st n)))).
Proof.
  induction page as [|h later IH]; intros st n; cbn [scroll_loop].
  - cbn [fst snd]. apply incl_refl.
  - pose proof (scroll_pass_all max st h) as Hall.
    assert (Hinc : incl (all_listings st) (update (all_listings st) (harvested h)))
      by (intros x Hx; apply update_in; now left).
    destruct (scroll_pass max st h) as [st1|why st1].
    + rewrite <- Hall in Hinc. exact (incl_tran Hinc (IH st1 (S n))).
    + cbn [fst snd]. now rewrite Hall.
Qed.

Lemma scroll_pass_not_budget max st h st' : scroll_pass max st h <> Breaks Budget st'.
Proof.
  destruct h as [c|]; cbn [scroll_pass]; [|discriminate].
  destruct (_ =? _)%nat.
  - destruct (3 <=? _)%nat; [discriminate|]. destruct (_ <=? _); discriminate.
  - destruct (_ <=? _); discriminate.
Qed.

Lemma scroll_loop_app max : forall page later st n,
  scroll_loop max (page ++ later) st n
  = match scroll_loop max page st n with
    | (Budget, st', n') => scroll_loop max later st' n'
    | stopped => stopped
    end.
Proof.
  induction page as [|h page IH]; intros later st n; cbn [app scroll_loop].
  - reflexivity.
  - destruct (scroll_pass max st h) as [st1|why st1] eqn:E.
    + apply IH.
    + destruct why; try reflexivity.
      now apply scroll_pass_not_budget in E.
Qed.

(** X26.  A larger scroll budget never loses a listing: what the scrolling
    stage collects in [n] passes it also collects in any greater number of
    passes of the same page. *)
Theorem more_scrolls_never_lose max n m page :
  (n <= m)%nat -> incl (scrolled max n page) (scrolled max m page).
Proof.
  intros Hle. unfold scrolled, scroll.
  replace m with (n + (m - n))%nat by lia.
  rewrite seq_app, map_app, scroll_loop_app. cbn [Nat.add].
  destruct (scroll_loop max (map page (seq 0 n)) scroll_start 0) as [[why st] k].
  destruct why; cbn [fst snd]; try apply incl_refl.
  apply scroll_loop_grows.
Qed.

Lemma more_scrolls_never_lose_witness :
  incl (scrolled 100 1 (fun i => Harvested [u "/marketplace/item/1"]))
       (scrolled 100 5 (fun i => Harvested [u "/marketplace/item/1"])).
Proof.
  apply (more_scrolls_never_lose 100 1 5 (fun i => Harvested [u "/marketplace/item/1"])).
  lia.
Defined.

(** ** Preferences asked for at the prompt *)

Lemma lookup_store key key' v d :
  Dict.lookup key (Dict.store key' v d)
  = if pystr_eqb key' key then Some v else Dict.lookup key d.
Proof.
  destruct (pystr_eqb key' key) eqn:E.
  - apply pystr_eqb_eq in E. subst key'. apply lookup_store_same.
  - apply lookup_store_other. intros ->. now rewrite pystr_eqb_refl in E.
Qed.

Lemma answer_text_texts key answer d :
  texts_are_text d -> texts_are_text (answer_text key answer d).
Proof.
  intros H k n Hk. unfold answer_text.
  destruct (strip Char.isspace answer) as [|c text]; [exact (H k n Hk)|].
  rewrite lookup_store. destruct (pystr_eqb key k); [discriminate|exact (H k n Hk)].
Qed.

Lemma answer_choice_texts key choices answer d :
  texts_are_text d -> texts_are_text (answer_choice key choices answer d).
Proof.
  intros H k n Hk. unfold answer_choice.
  destruct (strip Char.isspace answer) as [|c text]; [exact (H k n Hk)|].
  destruct (str_in _ choices); [|exact (H k n Hk)].
  rewrite lookup_store. destruct (pystr_eqb key k); [discriminate|exact (H k n Hk)].
Qed.

Lemma number_key_not_text key k :
  In key number_keys -> In k text_keys -> pystr_eqb key k = false.
Proof.
  unfold number_keys, text_keys, filter_mapping. cbn [map fst In].
  intros Hkey Hk.
  repeat (destruct Hkey as [<-|Hkey];
          [repeat (destruct Hk as [<-|Hk]; [reflexivity|]); destruct Hk|]).
  destruct Hkey.
Qed.

Lemma answer_number_texts key answer d :
  In key number_keys ->
  texts_are_text d -> texts_are_text (answer_number key answer d).
Proof.
  intros Hkey H k n Hk. unfold answer_number.
  destruct (strip Char.isspace answer) as [|c text]; [exact (H k n Hk)|].
  destruct (py_int (c :: text)); [|exact (H k n Hk)].
  rewrite lookup_store, (number_key_not_text key k Hkey Hk). exact (H k n Hk).
Qed.

Lemma default_texts : texts_are_text get_default_preferences.
Proof.
  intros k n Hk. unfold text_keys, filter_mapping in Hk. cbn [map fst In] in Hk.
  repeat (destruct Hk as [<-|Hk]; [discriminate|]). destruct Hk.
Qed.

Lemma prompted_texts a : texts_are_text (get_user_search_preferences_fallback a).
Proof.
  unfold get_user_search_preferences_fallback. cbv zeta.
  repeat first
    [ apply answer_text_texts
    | apply answer_choice_texts
    | apply answer_number_texts;
      [unfold number_keys; cbn [map In]; tauto|] ].
  exact default_texts.
Qed.

Lemma answer_number_scroll answer d :
  (exists n, Dict.lookup (u "Scroll Down Length") d = Some (Int n)) ->
  exists n,
    Dict.lookup (u "Scroll Down Length")
      (answer_number (u "Scroll Down Length") answer d) = Some (Int n).
Proof.
  intros H. unfold answer_number.
  destruct (strip Char.isspace answer) as [|c text]; [exact H|].
  destruct (py_int (c :: text)) as [n|]; [|exact H].
  exists n. apply lookup_store_same.
Qed.

Lemma answer_text_other key k answer d :
  pystr_eqb key k = false ->
  Dict.lookup k (answer_text key answer d) = Dict.lookup k d.
Proof.
  intros E. unfold answer_text.
  destruct (strip Char.isspace answer); [reflexivity|]. now rewrite lookup_store, E.
Qed.

Lemma answer_number_other key k answer d :
  pystr_eqb key k = false ->
  Dict.lookup k (answer_number key answer d) = Dict.lookup k d.
Proof.
  intros E. unfold answer_number.
  destruct (strip Char.isspace answer) as [|c text]; [reflexivity|].
  destruct (py_int (c :: text)); [|reflexivity]. now rewrite lookup_store, E.
Qed.

Lemma answer_choice_other key k choices answer d :
  pystr_eqb key k = false ->
  Dict.lookup k (answer_choice key choices answer d) = Dict.lookup k d.
Proof.
  intros E. unfold answer_choice.
  destruct (strip Char.isspace answer) as [|c text]; [reflexivity|].
  destruct (str_in _ choices); [|reflexivity]. now rewrite lookup_store, E.
Qed.

(** X27.  Preferences taken at the prompt never make [build_facebook_url]
    raise, and their scroll length is always a number: the prompt keeps
    the search term, the make and the model as text whatever is typed, and
    drops a number [int()] rejects.  The two failures of a preferences file,
    a filter read as a number and a scroll length read as text, cannot
    arise here. *)
Theorem prompted_preferences_are_safe a :
  (exists url,
      build_facebook_url (get_user_search_preferences_fallback a) = Returns url)
  /\ exists n,
       Dict.lookup (u "Scroll Down Length") (get_user_search_preferences_fallback a)
       = Some (Int n).
Proof.
  split.
  - destruct (build_facebook_url (get_user_search_preferences_fallback a))
      as [url|] eqn:E; [now exists url|].
    exfalso. pose proof (prompted_texts a) as Ht.
    apply build_raises_inv in E.
    destruct E as [[n H]|(k & param & n & Hin & H & _)].
    + apply (Ht (u "Search Term") n); [now left|exact H].
    + apply (Ht k n); [|exact H]. right.
      change k with (fst (k, param)). now apply in_map.
  - unfold get_user_search_preferences_fallback. cbv zeta.
    apply answer_number_scroll.
    rewrite !answer_choice_other, !answer_text_other, !answer_number_other,
      !answer_text_other by reflexivity.
    now exists 10.
Qed.

(** X28.  With no preferences file the non-interactive run falls back on
    the defaults and always has results to show: it searches the Atlanta
    vehicles URL of the defaults with ten scrolls and at most 500 listings,
    and returns the scores of what the collector gives. *)
Theorem missing_file_still_searches cy b :
  let url :=
    u "https://www.facebook.com/marketplace/atlanta/vehicles?minPrice=250&maxPrice=55000&maxMileage=200000&minYear=1995&maxYear=2020&radius=20&sortBy=creation_time_descend&exact=false" in
  let car_listings := scrape_facebook_marketplace_safe cy b url (Int 10) 500 in
  main_non_interactive cy b None
  = Returns (Some (save_results_to_csv
                     (map entry (calculate_deal_scores cy car_listings)),
                   calculate_deal_scores cy car_listings)).
Proof.
  cbv zeta. unfold main_non_interactive, run_search_fallback.
  cbn [read_preferences].
  change (build_facebook_url get_default_preferences)
    with (Returns (u "https://www.facebook.com/marketplace/atlanta/vehicles?minPrice=250&maxPrice=55000&maxMileage=200000&minYear=1995&maxYear=2020&radius=20&sortBy=creation_time_descend&exact=false")).
  change (Dict.lookup (u "Scroll Down Length") get_default_preferences)
    with (Some (Int 10)).
  cbv beta iota zeta.
  destruct (scrape_records cy b
              (u "https://www.facebook.com/marketplace/atlanta/vehicles?minPrice=250&maxPrice=55000&maxMileage=200000&minYear=1995&maxYear=2020&radius=20&sortBy=creation_time_descend&exact=false")
              (Int 10) 500) as [Hne _].
  destruct (scrape_facebook_marketplace_safe cy b _ (Int 10) 500); [congruence|].
  reflexivity.
Qed.
